(** * Minesweeper terminal demo (mine.c): the game-state engine

    A shallow embedding of the grid engine of [mine.c]: the [Cell] and
    [Grid] structs, [cell_at], [set_cell], [clear_grid], [randomize_grid],
    [init_grid], [count_nbors] and the key handler of [main]'s loop.

    Conventions.
    - [size_t] values are integers in [0, 2^64); arithmetic on them wraps
      ([size_wrap]).  [int] values are 32-bit; a signed overflow is
      undefined behaviour ([Undefined]).
    - [Cell cells[ROWS*COLS]] is a list; the C type fixes its length to
      [ROWS*COLS], which theorems assume as [length (cells g) = 100].
    - [assert] aborts the program ([AssertFailed]); the build lines of the
      source do not define NDEBUG.
    - [rand()] is an oracle [rnd : nat -> Z]: the [k]-th call of the run
      returns [rnd k]; the position in that stream is threaded as state.
    - The [while] loop of [randomize_grid] takes fuel, one unit per
      iteration; [OutOfFuel] is not a behaviour of the program. *)

(** Further conventions, for the drawing code and the loop of [main].
    - The standard output is the list of the characters written so far;
      [putchar] and [printf] append to it, and [fflush] changes nothing.
    - [printf]'s conversions [%d] and [%zu] write decimal digits
      ([print_int], [print_size]).
    - The keys read by [platform_readkey] are a list of [int] values, a
      negative one standing for a failed read; the terminal modes set by
      [enable_raw_mode] and [disable_raw_mode] are not part of the model. *)

From stdpp Require Import base list numbers.
From Stdlib Require Import ZArith Lia Bool Ascii.

Local Open Scope Z_scope.

(** ** Data model *)

Inductive Cell_Type : Type := EMPTY | MINE | COUNT.

Record Cell : Type := mkCell {
  type : Cell_Type;
  open : bool;
  flag : bool
}.

Definition COLS : Z := 10.
Definition ROWS : Z := 10.

Record Grid : Type := mkGrid {
  cells : list Cell;
  cur_row : Z;
  cur_col : Z;
  mines_count : Z;
  open_cells_count : Z
}.

#[global] Instance Cell_Type_eq_dec : EqDecision Cell_Type.
Proof. solve_decision. Defined.

#[global] Instance Cell_eq_dec : EqDecision Cell.
Proof. solve_decision. Defined.

#[global] Instance Grid_eq_dec : EqDecision Grid.
Proof. solve_decision. Defined.

(** ** Machine integers *)

Definition SIZE_BITS : Z := 64.
Definition size_wrap (x : Z) : Z := x mod 2 ^ SIZE_BITS.

Definition INT_MIN : Z := - 2 ^ 31.
Definition INT_MAX : Z := 2 ^ 31 - 1.

(** [(int)x] for a [size_t] x: reduction modulo 2^32 into the signed range. *)
Definition int_of_size (x : Z) : Z := (x + 2 ^ 31) mod 2 ^ 32 - 2 ^ 31.

(** ** Results of running a piece of the program *)

Inductive result (A : Type) : Type :=
| Ok (a : A)
| AssertFailed
| Undefined
| OutOfFuel.

Arguments Ok {A} a.
Arguments AssertFailed {A}.
Arguments Undefined {A}.
Arguments OutOfFuel {A}.

Definition bind {A B : Type} (m : result A) (f : A -> result B) : result B :=
  match m with
  | Ok a => f a
  | AssertFailed => AssertFailed
  | Undefined => Undefined
  | OutOfFuel => OutOfFuel
  end.

Notation "x <~ m ; k" := (bind m (fun x => k))
  (at level 20, m at level 100, k at level 200, only parsing).

(** A [for] loop over the values of [l], threading the state [s]. *)
Fixpoint for_each {A S : Type} (body : S -> A -> result S) (l : list A) (s : S)
  : result S :=
  match l with
  | [] => Ok s
  | x :: l' => s' <~ body s x; for_each body l' s'
  end.

(** [a + b] on [int]. *)
Definition int_add (a b : Z) : result Z :=
  let s := a + b in
  if (INT_MIN <=? s) && (s <=? INT_MAX) then Ok s else Undefined.

(** ** Field updates *)

Definition with_cells (g : Grid) (cs : list Cell) : Grid :=
  mkGrid cs (cur_row g) (cur_col g) (mines_count g) (open_cells_count g).
Definition with_cur_row (g : Grid) (r : Z) : Grid :=
  mkGrid (cells g) r (cur_col g) (mines_count g) (open_cells_count g).
Definition with_cur_col (g : Grid) (c : Z) : Grid :=
  mkGrid (cells g) (cur_row g) c (mines_count g) (open_cells_count g).
Definition with_mines_count (g : Grid) (m : Z) : Grid :=
  mkGrid (cells g) (cur_row g) (cur_col g) m (open_cells_count g).
Definition with_open_cells_count (g : Grid) (n : Z) : Grid :=
  mkGrid (cells g) (cur_row g) (cur_col g) (mines_count g) n.

Definition with_type (c : Cell) (t : Cell_Type) : Cell := mkCell t (open c) (flag c).
Definition with_open (c : Cell) (b : bool) : Cell := mkCell (type c) b (flag c).
Definition with_flag (c : Cell) (b : bool) : Cell := mkCell (type c) (open c) b.

(** [grid->cells[idx]] as an rvalue; reading outside the array is undefined. *)
Definition read_cell (g : Grid) (idx : Z) : result Cell :=
  match cells g !! Z.to_nat idx with
  | Some c => Ok c
  | None => Undefined
  end.

(** ** cell_at, set_cell, clear_grid *)

Definition cell_at (g : Grid) (row col : Z) : result Cell :=
  let idx := size_wrap (row * COLS + col) in
  if idx <? ROWS * COLS then read_cell g idx else AssertFailed.

Definition set_cell (g : Grid) (row col : Z) (c : Cell_Type) : result Grid :=
  let idx := size_wrap (row * COLS + col) in
  cell <~ read_cell g idx;
  Ok (with_cells g (<[Z.to_nat idx := with_type cell c]> (cells g))).

Definition cleared_cell : Cell := mkCell EMPTY false false.

Definition clear_cell (cs : list Cell) (i : Z) : list Cell :=
  <[Z.to_nat i := cleared_cell]> cs.

Definition clear_grid (g : Grid) : Grid :=
  mkGrid (foldl clear_cell (cells g) (seqZ 0 (ROWS * COLS)))
         0 0 (mines_count g) 0.

(** ** Random source, randomize_grid, init_grid *)

Section Engine.

(** The values returned by successive calls of [rand()]. *)
Variable rnd : nat -> Z.

(** [randi(max_inclusive)], drawing call number [k]; C's [%] truncates. *)
Definition randi (max_inclusive : Z) (k : nat) : Z :=
  Z.rem (rnd k) (max_inclusive + 1).

(** The [while] loop of [randomize_grid]; [k] is the next call of [rand()]. *)
Fixpoint randomize_loop (fuel : nat) (g : Grid) (placed : Z) (k : nat)
  : result (Grid * nat) :=
  if placed <? mines_count g then
    match fuel with
    | O => OutOfFuel
    | S fuel' =>
        let rr := randi (ROWS - 1) k in
        let cc := randi (COLS - 1) (S k) in
        c <~ cell_at g (size_wrap rr) (size_wrap cc);
        match type c with
        | MINE => randomize_loop fuel' g placed (S (S k))
        | _ =>
            g' <~ set_cell g (size_wrap rr) (size_wrap cc) MINE;
            randomize_loop fuel' g' (size_wrap (placed + 1)) (S (S k))
        end
    end
  else Ok (g, k).

Definition randomize_grid (fuel : nat) (g : Grid) (k : nat) : result (Grid * nat) :=
  randomize_loop fuel g 0 k.

Definition init_grid (fuel : nat) (g : Grid) (mines_count : Z) (k : nat)
  : result (Grid * nat) :=
  let g1 := clear_grid g in
  let g2 := with_mines_count g1 mines_count in
  randomize_grid fuel g2 k.

End Engine.

(** ** count_nbors *)

(** The body of the inner loop, for one [dx]; [nbors] is the running count. *)
Definition nbor_step (g : Grid) (row col dy : Z) (nbors : Z) (dx : Z) : result Z :=
  if (dx =? 0) && (dy =? 0) then Ok nbors
  else
    r <~ int_add (int_of_size row) dy;
    c <~ int_add (int_of_size col) dx;
    if (r <? 0) || (r >=? ROWS) || (c <? 0) || (c >=? COLS) then Ok nbors
    else
      cell <~ cell_at g (size_wrap r) (size_wrap c);
      match type cell with
      | MINE => Ok (size_wrap (nbors + 1))
      | _ => Ok nbors
      end.

Definition count_nbors (g : Grid) (row col : Z) : result Z :=
  for_each (fun nbors dy => for_each (nbor_step g row col dy) [-1; 0; 1] nbors)
           [-1; 0; 1] 0.

(** ** The key handler of [main] *)

(** The body [if (!cells[i].open) { cells[i].open = true; open_cells_count++; }],
    which the handler of the space key runs at the cursor and, in its
    reveal-all pass, at every cell. *)
Definition open_cell (g : Grid) (i : Z) : result Grid :=
  c <~ read_cell g i;
  if open c then Ok g
  else Ok (with_open_cells_count
             (with_cells g (<[Z.to_nat i := with_open c true]> (cells g)))
             (size_wrap (open_cells_count g + 1))).

(** The two nested [for] loops under the comment "reveal all". *)
Definition reveal_all (g : Grid) : result Grid :=
  for_each (fun g r =>
              for_each (fun g c => open_cell g (size_wrap (r * COLS + c)))
                       (seqZ 0 COLS) g)
           (seqZ 0 ROWS) g.

(** [case ' ']. *)
Definition key_space (g : Grid) : result Grid :=
  let idx := size_wrap (cur_row g * COLS + cur_col g) in
  if idx <? COLS * ROWS then
    g1 <~ open_cell g idx;
    c <~ read_cell g1 idx;
    match type c with
    | MINE => reveal_all g1
    | _ => Ok g1
    end
  else AssertFailed.

(** [case 'f']. *)
Definition key_f (g : Grid) : result Grid :=
  let idx := size_wrap (cur_row g * COLS + cur_col g) in
  if idx <? COLS * ROWS then
    c <~ read_cell g idx;
    Ok (with_cells g (<[Z.to_nat idx := with_flag c (negb (flag c))]> (cells g)))
  else AssertFailed.

(** [case 'd'], [case 'a'], [case 's'], [case 'w']. *)
Definition key_d (g : Grid) : Grid :=
  if cur_col g <? COLS - 1 then with_cur_col g (size_wrap (cur_col g + 1)) else g.
Definition key_a (g : Grid) : Grid :=
  if cur_col g >? 0 then with_cur_col g (size_wrap (cur_col g - 1)) else g.
Definition key_s (g : Grid) : Grid :=
  if cur_row g <? ROWS - 1 then with_cur_row g (size_wrap (cur_row g + 1)) else g.
Definition key_w (g : Grid) : Grid :=
  if cur_row g >? 0 then with_cur_row g (size_wrap (cur_row g - 1)) else g.

(** The locals of [main] that the loop changes, and the position reached in
    the stream of [rand()] values. *)
Record Game : Type := mkGame {
  grid : Grid;
  quit : bool;
  rand_calls : nat
}.

Definition max_mines : Z := 25.

Definition with_grid (s : Game) (g : Grid) : Game :=
  mkGame g (quit s) (rand_calls s).

(** The code of a character constant. *)
Definition chr (c : ascii) : Z := Z.of_nat (nat_of_ascii c).

Section Loop.

Variable rnd : nat -> Z.

(** The [switch (ch)] of the loop. *)
Definition handle_key (fuel : nat) (ch : Z) (s : Game) : result Game :=
  if ch =? chr "d" then Ok (with_grid s (key_d (grid s)))
  else if ch =? chr "a" then Ok (with_grid s (key_a (grid s)))
  else if ch =? chr "s" then Ok (with_grid s (key_s (grid s)))
  else if ch =? chr "w" then Ok (with_grid s (key_w (grid s)))
  else if ch =? chr " " then g <~ key_space (grid s); Ok (with_grid s g)
  else if ch =? chr "f" then g <~ key_f (grid s); Ok (with_grid s g)
  else if ch =? chr "q" then Ok (mkGame (grid s) true (rand_calls s))
  else if ch =? chr "r" then
    gk <~ init_grid rnd fuel (grid s) max_mines (rand_calls s);
    Ok (mkGame (fst gk) (quit s) (snd gk))
  else Ok s.

(** One turn of [while (!quit)]: a failed read ([ch < 0]) changes nothing. *)
Definition loop_step (fuel : nat) (ch : Z) (s : Game) : result Game :=
  if ch <? 0 then Ok s else handle_key fuel ch s.

(** The states the program can be in: [main] initialises the grid (whose
    memory holds anything before) and then handles keys.  [reach_reset]
    also admits a reset with a mine count other than [max_mines]. *)
Inductive reachable : Game -> Prop :=
| reach_init fuel g0 m k g k' :
    length (cells g0) = Z.to_nat (ROWS * COLS) ->
    0 <= m < 2 ^ SIZE_BITS ->
    init_grid rnd fuel g0 m k = Ok (g, k') ->
    reachable (mkGame g false k')
| reach_key fuel ch s s' :
    reachable s -> loop_step fuel ch s = Ok s' -> reachable s'
| reach_reset fuel m s g k' :
    reachable s ->
    0 <= m < 2 ^ SIZE_BITS ->
    init_grid rnd fuel (grid s) m (rand_calls s) = Ok (g, k') ->
    reachable (mkGame g (quit s) k').

End Loop.

(** ** The engine operations named by the specification *)

Inductive Direction : Type := Up | Down | Left | Right.

Definition key_of_direction (d : Direction) : Z :=
  match d with
  | Up => chr "w"
  | Down => chr "s"
  | Left => chr "a"
  | Right => chr "d"
  end.

Definition move_cursor (d : Direction) (g : Grid) : Grid :=
  match d with
  | Up => key_w g
  | Down => key_s g
  | Left => key_a g
  | Right => key_d g
  end.

Inductive RevealOutcome : Type := AlreadyOpen | Opened | Detonated.

(** Modelled from the spec: the [RevealOutcome] of [reveal_at_cursor] (the
    handler of the space key returns nothing).  Section 4.1 of the
    specification decides it from the cell under the cursor before the
    reveal: if the cell is already revealed the outcome is [AlreadyOpen];
    else it is [Detonated] when the kind of the cell is Mine and [Opened]
    otherwise. *)
Definition reveal_outcome (g : Grid) : result RevealOutcome :=
  c <~ cell_at g (cur_row g) (cur_col g);
  if open c then Ok AlreadyOpen
  else
    match type c with
    | MINE => Ok Detonated
    | _ => Ok Opened
    end.

Definition reveal_at_cursor (g : Grid) : result (Grid * RevealOutcome) :=
  o <~ reveal_outcome g;
  g' <~ key_space g;
  Ok (g', o).

(** ** Predicates on grids *)

Definition is_mine (c : Cell) : bool :=
  match type c with MINE => true | _ => false end.
Definition is_empty (c : Cell) : bool :=
  match type c with EMPTY => true | _ => false end.

Definition count_if (p : Cell -> bool) (cs : list Cell) : Z :=
  Z.of_nat (length (List.filter p cs)).

(** The array has its [ROWS*COLS] cells. *)
Definition cells_ok (g : Grid) : Prop :=
  length (cells g) = Z.to_nat (ROWS * COLS).

Definition cursor_ok (g : Grid) : Prop :=
  0 <= cur_row g < ROWS /\ 0 <= cur_col g < COLS.

(** The invariants of the Grid data model: the array is whole, the cursor
    is on the grid and [open_cells_count] counts the open cells. *)
Definition grid_ok (g : Grid) : Prop :=
  cells_ok g /\ cursor_ok g /\ open_cells_count g = count_if open (cells g).

Definition cursor_index (g : Grid) : nat :=
  Z.to_nat (cur_row g * COLS + cur_col g).

(** A sample random source: iteration [j] of the placement loop draws the
    cell number [j mod 100], row by row. *)
Definition cyc (k : nat) : Z :=
  let j := Z.of_nat (k / 2) in
  if Nat.even k then j / 10 else j mod 10.

(** The cell drawn by iteration [j] of a placement loop that starts at
    call [k] of [rand()]. *)
Definition pick (rnd : nat -> Z) (k j : nat) : Z * Z :=
  (randi rnd (ROWS - 1) (k + 2 * j), randi rnd (COLS - 1) (S (k + 2 * j))).

(** [rand()] returns values in [0, RAND_MAX]. *)
Definition rand_ok (rnd : nat -> Z) : Prop := forall k, 0 <= rnd k.

(** From call [k] on, every cell of the grid keeps being drawn. *)
Definition fair_from (rnd : nat -> Z) (k : nat) : Prop :=
  forall (i : nat) (r c : Z), 0 <= r < ROWS -> 0 <= c < COLS ->
    exists j, (i <= j)%nat /\ pick rnd k j = (r, c).

(** Some mine is shown; every cell is open. *)
Definition mine_shown (g : Grid) : bool :=
  existsb (fun c => is_mine c && open c) (cells g).
Definition all_open (g : Grid) : bool := forallb open (cells g).

(** Once a mine is shown the whole board is. *)
Definition detonation_inv (g : Grid) : Prop :=
  mine_shown g = true -> all_open g = true /\ open_cells_count g = ROWS * COLS.

(** What every state of a game satisfies: the data-model invariants and
    [detonation_inv]. *)
Definition game_ok (g : Grid) : Prop := grid_ok g /\ detonation_inv g.

(** All positions of the grid, row by row. *)
Definition all_positions : list (Z * Z) :=
  List.flat_map (fun r => List.map (fun c => (r, c)) (seqZ 0 COLS)) (seqZ 0 ROWS).

(** [q] is one of the eight positions around [p]. *)
Definition adjacent (p q : Z * Z) : bool :=
  (Z.abs (fst q - fst p) <=? 1) && (Z.abs (snd q - snd p) <=? 1)
  && negb ((fst q =? fst p) && (snd q =? snd p)).

(** The positions of the grid in the Moore neighbourhood of [(row, col)]. *)
Definition moore_neighbors (row col : Z) : list (Z * Z) :=
  List.filter (adjacent (row, col)) all_positions.

Definition mine_at (g : Grid) (p : Z * Z) : bool :=
  match cells g !! Z.to_nat (fst p * COLS + snd p) with
  | Some c => is_mine c
  | None => false
  end.

(** The number of mines around [(row, col)]. *)
Definition neighbor_mines (g : Grid) (row col : Z) : Z :=
  Z.of_nat (length (List.filter (mine_at g) (moore_neighbors row col))).

Definition on_border (x limit : Z) : bool := (x =? 0) || (x =? limit - 1).

(** How many neighbours a cell of the grid has: 3 in a corner, 5 on an
    edge, 8 inside. *)
Definition expected_neighbors (row col : Z) : nat :=
  match on_border row ROWS, on_border col COLS with
  | true, true => 3
  | true, false | false, true => 5
  | false, false => 8
  end.

(** The guard of [count_nbors], negated: the position is on the grid. *)
Definition on_grid (p : Z * Z) : bool :=
  negb ((fst p <? 0) || (fst p >=? ROWS) || (snd p <? 0) || (snd p >=? COLS)).

(** The positions that the inner loop of [count_nbors] passes to its guard
    for the offsets [dxs], and those for which the loops reach [cell_at],
    in the order of the loops. *)
Definition offsets_row (row col dy : Z) (dxs : list Z) : list (Z * Z) :=
  List.flat_map
    (fun dx => if (dx =? 0) && (dy =? 0) then [] else [(row + dy, col + dx)])
    dxs.

Definition probed (row col : Z) : list (Z * Z) :=
  List.filter on_grid
    (List.flat_map (fun dy => offsets_row row col dy [-1; 0; 1]) [-1; 0; 1]).

(** The mines among those of the positions [ps] that pass the guard. *)
Definition probe_tally (g : Grid) (ps : list (Z * Z)) : Z :=
  Z.of_nat (length (List.filter (mine_at g) (List.filter on_grid ps))).

(** A concealed, unflagged cell that is a mine or empty. *)
Definition concealed (c : Cell) : bool :=
  negb (open c) && negb (flag c) && (is_mine c || is_empty c).

(** The indices of the array that hold a mine. *)
Definition mine_positions (g : Grid) : list nat :=
  List.filter (fun i => match cells g !! i with
                        | Some c => is_mine c
                        | None => false
                        end)
              (seq 0 (length (cells g))).

(** The loop invariant of [randomize_grid]: the cleared grid with [placed]
    mines put on it. *)
Definition placing (g : Grid) (placed : Z) : Prop :=
  cells_ok g
  /\ forallb concealed (cells g) = true
  /\ count_if is_mine (cells g) = placed
  /\ cur_row g = 0 /\ cur_col g = 0 /\ open_cells_count g = 0.

(** The index in the array of the cell drawn by the calls [k] and [k+1] of
    [rand()]. *)
Definition drawn (rnd : nat -> Z) (k : nat) : nat :=
  Z.to_nat (randi rnd (ROWS - 1) k * COLS + randi rnd (COLS - 1) (S k)).

(** [set_cell(grid, rr, cc, MINE)] on the cell [c] at index [i]. *)
Definition mined_at (g : Grid) (i : nat) (c : Cell) : Grid :=
  with_cells g (<[i := with_type c MINE]> (cells g)).

(** Sample grids: memory before initialisation, a board with one shown
    mine under the cursor, a board full of hidden mines, an untouched board
    without mines, a board with a hidden mine under the cursor and one with
    an open cell under it. *)
Definition scrap_grid : Grid :=
  mkGrid (replicate 100 (mkCell COUNT true true)) 7 3 9 41.

Definition lone_mine_grid : Grid :=
  mkGrid (mkCell MINE true false :: replicate 99 cleared_cell) 0 0 1 1.

Definition full_mine_grid : Grid :=
  mkGrid (replicate 100 (mkCell MINE false false)) 0 0 100 0.

Definition blank_grid : Grid := mkGrid (replicate 100 cleared_cell) 0 0 0 0.

Definition hidden_mine_grid : Grid :=
  mkGrid (mkCell MINE false false :: replicate 99 cleared_cell) 0 0 1 0.

Definition opened_corner_grid : Grid :=
  mkGrid (mkCell EMPTY true true :: replicate 99 cleared_cell) 0 0 0 1.

(** The loop of [main] fed with the keys [keys]. *)
Definition run_keys (rnd : nat -> Z) (fuel : nat) (keys : list Z) (s : Game)
  : result Game :=
  for_each (fun s ch => loop_step rnd fuel ch s) keys s.

(** The cursor stands at the boundary that a move in direction [d] would
    cross. *)
Definition against_boundary (d : Direction) (g : Grid) : bool :=
  match d with
  | Up => cur_row g =? 0
  | Down => cur_row g =? ROWS - 1
  | Left => cur_col g =? 0
  | Right => cur_col g =? COLS - 1
  end.

(** A sample game on the source [cyc]: 25 mines are placed on the first 25
    cells, then the cell under the cursor, a mine, is revealed. *)
Definition started_grid : Grid :=
  mkGrid (replicate 25 (mkCell MINE false false) ++ replicate 75 cleared_cell)
         0 0 max_mines 0.

Definition started_game : Game := mkGame started_grid false 50.

Definition detonated_game : Game :=
  mkGame (mkGrid (replicate 25 (mkCell MINE true false)
                  ++ replicate 75 (mkCell EMPTY true false))
                 0 0 max_mines 100)
         false 50.

(** The grid after the open block ran on the concealed cell [c] at [i]. *)
Definition opened_at (g : Grid) (i : nat) (c : Cell) : Grid :=
  with_open_cells_count
    (with_cells g (<[i := with_open c true]> (cells g)))
    (size_wrap (open_cells_count g + 1)).

(** ** The rest of the engine *)

(** [g'] has the kinds, the flags, the cursor and the mine count of [g]. *)
Definition same_board (g g' : Grid) : Prop :=
  type <$> cells g' = type <$> cells g
  /\ flag <$> cells g' = flag <$> cells g
  /\ cur_row g' = cur_row g /\ cur_col g' = cur_col g
  /\ mines_count g' = mines_count g.

(** The header of the screen tells the truth about the mines:
    [mines_count] is the number of mines on the board. *)
Definition counts_ok (g : Grid) : Prop :=
  count_if is_mine (cells g) = mines_count g
  /\ mines_count g <= ROWS * COLS.

(** [g'] has the open cells, the flags, the cursor and the counters of
    [g]. *)
Definition same_marks (g g' : Grid) : Prop :=
  open <$> cells g' = open <$> cells g
  /\ flag <$> cells g' = flag <$> cells g
  /\ (cur_row g', cur_col g', mines_count g', open_cells_count g')
     = (cur_row g, cur_col g, mines_count g, open_cells_count g).

(** Every cell open in [g] is open in [g']. *)
Definition opens_more (g g' : Grid) : Prop :=
  forall i, (open <$> cells g) !! i = Some true ->
            (open <$> cells g') !! i = Some true.

(** ** Drawing *)

(** The standard output is the list of the characters written so far. *)
Definition NL : ascii := "010"%char.
Definition ESC : ascii := "027"%char.

(** [putchar(ch)]: the value is written as an [unsigned char]. *)
Definition putchar (out : list ascii) (ch : Z) : list ascii :=
  out ++ [ascii_of_nat (Z.to_nat (ch mod 256))].

(** The character of the decimal digit [d]. *)
Definition digit (d : Z) : ascii := ascii_of_nat (Z.to_nat (chr "0" + d)).

(** The decimal digits of [n], most significant first, in front of [acc];
    [fuel] bounds their number. *)
Fixpoint dec_digits (fuel : nat) (n : Z) (acc : list ascii) : list ascii :=
  match fuel with
  | O => acc
  | S fuel' =>
      let acc' := digit (n mod 10) :: acc in
      if n <? 10 then acc' else dec_digits fuel' (n / 10) acc'
  end.

(** What [printf] writes for [%zu] (at most 20 digits) and for [%d] (a sign
    and at most 10 digits). *)
Definition print_size (n : Z) : list ascii := dec_digits 20 n [].
Definition print_int (n : Z) : list ascii :=
  if n <? 0 then "-"%char :: dec_digits 10 (- n) [] else dec_digits 10 n [].

(** [printf("\033[%dA", rows)]. *)
Definition clear_terminal_and_move_up (rows : Z) (out : list ascii) : list ascii :=
  out ++ [ESC; "["%char] ++ print_int rows ++ ["A"%char].

(** The test [grid->cur_row == (size_t)r && grid->cur_col == (size_t)c]. *)
Definition at_cursor (g : Grid) (r c : Z) : bool :=
  (cur_row g =? size_wrap r) && (cur_col g =? size_wrap c).

(** The body of the inner loop of [draw_grid]: the three characters of the
    cell in row [r], column [c]. *)
Definition draw_cell (g : Grid) (r : Z) (out : list ascii) (c : Z)
  : result (list ascii) :=
  cell <~ cell_at g (size_wrap r) (size_wrap c);
  let out1 := putchar out (if at_cursor g r c then chr "[" else chr " ") in
  out2 <~ (if negb (open cell) then
             Ok (putchar out1 (if flag cell then chr "F" else chr "#"))
           else
             match type cell with
             | EMPTY =>
                 nbors <~ count_nbors g (size_wrap r) (size_wrap c);
                 if nbors =? 0 then Ok (putchar out1 (chr " "))
                 else ch <~ int_add (chr "0") (int_of_size nbors);
                      Ok (putchar out1 ch)
             | MINE => Ok (putchar out1 (chr "*"))
             | COUNT => Ok (putchar out1 (chr "?"))
             end);
  Ok (putchar out2 (if at_cursor g r c then chr "]" else chr " ")).

(** The body of the outer loop: one line of the board. *)
Definition draw_row (g : Grid) (out : list ascii) (r : Z) : result (list ascii) :=
  let out1 := putchar out (chr "|") in
  out2 <~ for_each (draw_cell g r) (seqZ 0 COLS) out1;
  Ok (out2 ++ ["|"%char; NL]).

(** The loop that writes a border, and the newline after it. *)
Definition draw_border (out : list ascii) : list ascii :=
  putchar (foldl (fun out _ => putchar out (chr "-")) out (seqZ 0 (COLS * 3 + 2)))
          (chr NL).

(** The literal pieces " | mines: " and " | open: " of the header's format. *)
Definition text_mines : list ascii :=
  [" "; "|"; " "; "m"; "i"; "n"; "e"; "s"; ":"; " "]%char.
Definition text_open : list ascii :=
  [" "; "|"; " "; "o"; "p"; "e"; "n"; ":"; " "]%char.

(** [printf("%dx%d | mines: %zu | open: %zu/%d\n", ...)]. *)
Definition draw_header (g : Grid) (out : list ascii) : list ascii :=
  out ++ print_int COLS ++ ["x"%char] ++ print_int ROWS
      ++ text_mines ++ print_size (mines_count g)
      ++ text_open ++ print_size (open_cells_count g)
      ++ ["/"%char] ++ print_int (ROWS * COLS) ++ [NL].

Definition draw_grid (g : Grid) (out : list ascii) : result (list ascii) :=
  let out1 := draw_header g out in
  let out2 := draw_border out1 in
  out3 <~ for_each (draw_row g) (seqZ 0 ROWS) out2;
  Ok (draw_border out3).

(** The end of a turn of the loop in [main]: the cursor of the terminal is
    moved up and the grid is drawn again. *)
Definition redraw (g : Grid) (out : list ascii) : result (list ascii) :=
  draw_grid g (clear_terminal_and_move_up (ROWS + 3) out).

(** [while (!quit)] fed with the keys [keys], with the standard output: a
    failed read ([ch < 0]) goes back to the test of the loop; every other
    key is handled and the grid drawn again, the key [q] included.  With no
    key left the program waits in [platform_readkey]. *)
Fixpoint play (rnd : nat -> Z) (fuel : nat) (keys : list Z) (s : Game)
         (out : list ascii) : result (Game * list ascii) :=
  if quit s then Ok (s, out)
  else
    match keys with
    | [] => Ok (s, out)
    | ch :: keys' =>
        if ch <? 0 then play rnd fuel keys' s out
        else
          s' <~ handle_key rnd fuel ch s;
          out' <~ redraw (grid s') out;
          play rnd fuel keys' s' out'
    end.

(** [main] on a POSIX terminal: [g0] is what the memory of [grid] holds at
    the start, [tty] the answer of [isatty].  The exit code is 1 when the
    input is not a terminal, 0 after [q], and there is none while the
    program waits for a key. *)
Definition main (rnd : nat -> Z) (fuel : nat) (tty : bool) (keys : list Z)
           (g0 : Grid) (k : nat) (out : list ascii)
  : result (option Z * Game * list ascii) :=
  gk <~ init_grid rnd fuel g0 max_mines k;
  let s := mkGame (fst gk) false (snd gk) in
  if negb tty then Ok (Some 1, s, out)
  else
    out1 <~ draw_grid (grid s) out;
    r <~ play rnd fuel keys s out1;
    Ok (if quit (fst r) then Some 0 else None, fst r, snd r).

(** The screen as text: what a cell, a row, a border and the whole frame
    look like. *)
Definition cell_glyph (g : Grid) (r c : Z) (cell : Cell) : ascii :=
  if open cell then
    match type cell with
    | EMPTY =>
        if neighbor_mines g r c =? 0 then " "%char
        else digit (neighbor_mines g r c)
    | MINE => "*"%char
    | COUNT => "?"%char
    end
  else if flag cell then "F"%char else "#"%char.

Definition cell_text (g : Grid) (r c : Z) : list ascii :=
  match cells g !! Z.to_nat (r * COLS + c) with
  | Some cell =>
      [if at_cursor g r c then "["%char else " "%char;
       cell_glyph g r c cell;
       if at_cursor g r c then "]"%char else " "%char]
  | None => []
  end.

Definition row_text (g : Grid) (r : Z) : list ascii :=
  "|"%char :: List.flat_map (cell_text g r) (seqZ 0 COLS) ++ ["|"%char; NL].

Definition border_text : list ascii :=
  List.repeat "-"%char (Z.to_nat (COLS * 3 + 2)) ++ [NL].

Definition frame_text (g : Grid) : list ascii :=
  draw_header g [] ++ border_text
    ++ List.flat_map (row_text g) (seqZ 0 ROWS) ++ border_text.

(** How often the character [a] occurs in [l]. *)
Definition occurrences (a : ascii) (l : list ascii) : nat :=
  count_occ ascii_dec l a.

(** * Properties *)

(** ** The code on sample inputs *)

Example cell_at_corner : cell_at hidden_mine_grid 0 0 = Ok (mkCell MINE false false).
Proof. reflexivity. Qed.

Example cell_at_past_last_row : cell_at blank_grid 10 0 = AssertFailed.
Proof. reflexivity. Qed.

Example cell_at_past_last_col : cell_at hidden_mine_grid 0 10 = Ok cleared_cell.
Proof. reflexivity. Qed.

Example count_nbors_corner : count_nbors full_mine_grid 0 0 = Ok 3.
Proof. vm_compute. reflexivity. Qed.

Example count_nbors_edge : count_nbors full_mine_grid 0 4 = Ok 5.
Proof. vm_compute. reflexivity. Qed.

Example count_nbors_inside : count_nbors full_mine_grid 4 4 = Ok 8.
Proof. vm_compute. reflexivity. Qed.

Example count_nbors_int_overflow :
  count_nbors full_mine_grid (2 ^ 31 - 1) 0 = Undefined.
Proof. vm_compute. reflexivity. Qed.

Example init_grid_25 : init_grid cyc 25 scrap_grid max_mines 0 = Ok (started_grid, 50%nat).
Proof. vm_compute. reflexivity. Qed.

Example init_grid_out_of_fuel : init_grid cyc 24 scrap_grid max_mines 0 = OutOfFuel.
Proof. vm_compute. reflexivity. Qed.

Example init_grid_101 : init_grid cyc 500 scrap_grid 101 0 = OutOfFuel.
Proof. vm_compute. reflexivity. Qed.

Example space_on_mine : loop_step cyc 0 (chr " ") started_game = Ok detonated_game.
Proof. vm_compute. reflexivity. Qed.

Example keys_right_down_flag :
  run_keys cyc 0 [chr "d"; chr "s"; chr "f"; chr "a"; chr "a"]
           (mkGame blank_grid false 0)
  = Ok (mkGame (mkGrid (<[11%nat := mkCell EMPTY false true]> (cells blank_grid))
                       1 0 0 0)
               false 0).
Proof. vm_compute. reflexivity. Qed.

Example unknown_key_ignored :
  loop_step cyc 0 (chr "x") started_game = Ok started_game.
Proof. reflexivity. Qed.

(** ** Arithmetic and loops *)

Lemma size_wrap_small (x : Z) : 0 <= x < 2 ^ SIZE_BITS -> size_wrap x = x.
Proof. intros Hx. unfold size_wrap. now apply Z.mod_small. Qed.

Lemma seqZ_succ (m : Z) (n : nat) :
  seqZ m (Z.of_nat (S n)) = m :: seqZ (m + 1) (Z.of_nat n).
Proof. rewrite seqZ_cons by lia. do 2 f_equal; lia. Qed.

Lemma for_each_app {A S : Type} (body : S -> A -> result S) (l1 l2 : list A) (s : S) :
  for_each body (l1 ++ l2) s = (s' <~ for_each body l1 s; for_each body l2 s').
Proof.
  revert s. induction l1 as [|x l1 IH]; intros s; simpl; [reflexivity|].
  destruct (body s x); simpl; auto.
Qed.

Lemma for_each_cons {A S : Type} (body : S -> A -> result S) (x : A) (l : list A)
      (s : S) :
  for_each body (x :: l) s = (s' <~ body s x; for_each body l s').
Proof. reflexivity. Qed.

Lemma for_each_map {A B S : Type} (body : S -> B -> result S) (f : A -> B)
      (l : list A) (s : S) :
  for_each body (List.map f l) s = for_each (fun s x => body s (f x)) l s.
Proof.
  revert s. induction l as [|x l IH]; intros s; simpl; [reflexivity|].
  destruct (body s (f x)); simpl; auto.
Qed.

(** ** Counting cells *)

Lemma count_if_app (p : Cell -> bool) (l1 l2 : list Cell) :
  count_if p (l1 ++ l2) = count_if p l1 + count_if p l2.
Proof. unfold count_if. rewrite List.filter_app, length_app. lia. Qed.

Lemma count_if_cons (p : Cell -> bool) (c : Cell) (l : list Cell) :
  count_if p (c :: l) = (if p c then 1 else 0) + count_if p l.
Proof. unfold count_if. simpl. destruct (p c); simpl; lia. Qed.

Lemma count_if_bounds (p : Cell -> bool) (l : list Cell) :
  0 <= count_if p l <= Z.of_nat (length l).
Proof. unfold count_if. pose proof (List.filter_length_le p l). lia. Qed.

Lemma count_if_split (p : Cell -> bool) (l : list Cell) :
  count_if p l + count_if (fun c => negb (p c)) l = Z.of_nat (length l).
Proof. unfold count_if. pose proof (List.filter_length p l). lia. Qed.

Lemma count_if_all (p : Cell -> bool) (l : list Cell) :
  forallb p l = true -> count_if p l = Z.of_nat (length l).
Proof.
  induction l as [|c l IH]; simpl; [reflexivity|].
  intros [Hc Hl]%andb_prop. rewrite count_if_cons, Hc, IH by assumption. lia.
Qed.

(** ** The array under the cursor *)

Lemma cursor_index_lt (g : Grid) :
  cells_ok g -> cursor_ok g -> (cursor_index g < length (cells g))%nat.
Proof.
  unfold cells_ok, cursor_ok, cursor_index, ROWS, COLS. intros -> Hc. lia.
Qed.

Lemma cursor_wrap (g : Grid) :
  cursor_ok g ->
  size_wrap (cur_row g * COLS + cur_col g) = cur_row g * COLS + cur_col g
  /\ cur_row g * COLS + cur_col g < COLS * ROWS.
Proof.
  unfold cursor_ok, ROWS, COLS. intros Hc. split; [|lia].
  apply size_wrap_small. unfold SIZE_BITS. lia.
Qed.

Lemma cursor_cell (g : Grid) :
  cells_ok g -> cursor_ok g -> exists c, cells g !! cursor_index g = Some c.
Proof.
  intros Hl Hc. apply lookup_lt_is_Some. now apply cursor_index_lt.
Qed.

Lemma read_cell_Some (g : Grid) (i : Z) (c : Cell) :
  cells g !! Z.to_nat i = Some c -> read_cell g i = Ok c.
Proof. unfold read_cell. now intros ->. Qed.

(** ** open_cell and the reveal-all pass *)

Lemma open_cell_Some (g : Grid) (i : Z) (c : Cell) :
  cells g !! Z.to_nat i = Some c ->
  open_cell g i = Ok (if open c then g else opened_at g (Z.to_nat i) c).
Proof.
  intros Hc. unfold open_cell. rewrite (read_cell_Some _ _ _ Hc). simpl.
  now destruct (open c).
Qed.

Lemma with_open_id (c : Cell) : open c = true -> with_open c true = c.
Proof. destruct c; simpl; now intros ->. Qed.

Lemma open_sweep (suf : list Cell) :
  forall (pre : list Cell) (g : Grid),
    cells g = pre ++ suf ->
    0 <= open_cells_count g ->
    open_cells_count g + Z.of_nat (length suf) < 2 ^ SIZE_BITS ->
    for_each open_cell (seqZ (Z.of_nat (length pre)) (Z.of_nat (length suf))) g
    = Ok (with_open_cells_count
            (with_cells g (pre ++ ((fun c => with_open c true) <$> suf)))
            (open_cells_count g + count_if (fun c => negb (open c)) suf)).
Proof.
  induction suf as [|c suf IH]; intros pre g Hg H0 Hlt.
  - simpl. f_equal. destruct g; simpl in *. subst.
    unfold with_open_cells_count, with_cells, count_if; simpl.
    rewrite app_nil_r. f_equal. lia.
  - cbn [length]. rewrite seqZ_succ. cbn [for_each].
    assert (Hc : cells g !! Z.to_nat (Z.of_nat (length pre)) = Some c).
    { rewrite Nat2Z.id, Hg. now apply list_lookup_middle. }
    rewrite (open_cell_Some _ _ _ Hc). cbn [bind]. rewrite Nat2Z.id.
    assert (Hlen : Z.of_nat (length pre) + 1 = Z.of_nat (length (pre ++ [c])))
      by (rewrite length_app; simpl; lia).
    assert (Hlen' : Z.of_nat (length pre) + 1
                    = Z.of_nat (length (pre ++ [with_open c true])))
      by (rewrite length_app; simpl; lia).
    rewrite count_if_cons. simpl length in Hlt.
    destruct (open c) eqn:Ho; simpl negb; cbv iota.
    + rewrite Hlen, (IH (pre ++ [c]) g); [| now rewrite <- app_assoc | lia | lia].
      f_equal. unfold with_open_cells_count, with_cells; simpl.
      rewrite (with_open_id c Ho), <- app_assoc. simpl. f_equal; lia.
    + rewrite Hlen'.
      assert (Hw : size_wrap (open_cells_count g + 1) = open_cells_count g + 1)
        by (apply size_wrap_small; lia).
      rewrite (IH (pre ++ [with_open c true]) (opened_at g (length pre) c)).
      * f_equal. unfold opened_at, with_open_cells_count, with_cells; simpl.
        rewrite Hw, <- app_assoc. simpl. f_equal; lia.
      * unfold opened_at; simpl. rewrite Hg, <- app_assoc. simpl.
        now rewrite insert_app_r_alt, Nat.sub_diag by lia.
      * unfold opened_at; simpl. lia.
      * unfold opened_at; simpl. lia.
Qed.

Lemma reveal_all_flat (g : Grid) :
  reveal_all g = for_each open_cell (seqZ 0 (ROWS * COLS)) g.
Proof.
  unfold reveal_all.
  transitivity
    (for_each open_cell
       (List.flat_map
          (fun r => List.map (fun c => size_wrap (r * COLS + c)) (seqZ 0 COLS))
          (seqZ 0 ROWS)) g).
  - generalize (seqZ 0 ROWS) as rows. intros rows. revert g.
    induction rows as [|r rows IH]; intros g; [reflexivity|].
    cbn [for_each List.flat_map]. rewrite for_each_app, for_each_map.
    destruct (for_each _ (seqZ 0 COLS) g); simpl; auto.
  - reflexivity.
Qed.

Lemma reveal_all_ok (g : Grid) :
  cells_ok g ->
  0 <= open_cells_count g <= ROWS * COLS ->
  reveal_all g
  = Ok (with_open_cells_count
          (with_cells g ((fun c => with_open c true) <$> cells g))
          (open_cells_count g + count_if (fun c => negb (open c)) (cells g))).
Proof.
  intros Hl Hn. rewrite reveal_all_flat.
  replace (ROWS * COLS) with (Z.of_nat (length (cells g)))
    by (rewrite Hl; reflexivity).
  apply (open_sweep (cells g) [] g); [reflexivity | lia |].
  rewrite Hl. unfold ROWS, COLS, SIZE_BITS in *. lia.
Qed.

Lemma count_if_insert (p : Cell -> bool) (l : list Cell) (i : nat) (c c' : Cell) :
  l !! i = Some c ->
  count_if p (<[i := c']> l)
  = count_if p l - (if p c then 1 else 0) + (if p c' then 1 else 0).
Proof.
  intros Hc. destruct (list_elem_of_split_length _ _ _ Hc) as (l1 & l2 & -> & ->).
  rewrite insert_app_r_alt, Nat.sub_diag by lia. simpl.
  rewrite !count_if_app, !count_if_cons. lia.
Qed.

Lemma all_open_fmap (l : list Cell) :
  forallb open ((fun c => with_open c true) <$> l) = true.
Proof. induction l as [|c l IH]; simpl; auto. Qed.

Lemma forallb_insert {A : Type} (f : A -> bool) (l : list A) (i : nat) (x : A) :
  forallb f l = true -> f x = true -> forallb f (<[i := x]> l) = true.
Proof.
  revert i. induction l as [|y l IH]; intros i Hl Hx; [reflexivity|].
  apply andb_prop in Hl as [Hy Hl].
  destruct i; simpl; rewrite ?Hx, ?Hy; simpl; auto.
Qed.

Lemma forallb_lookup {A : Type} (f : A -> bool) (l : list A) (i : nat) (x : A) :
  forallb f l = true -> l !! i = Some x -> f x = true.
Proof.
  intros Hl Hx. rewrite forallb_forall in Hl. apply Hl.
  apply list_elem_of_In, list_elem_of_lookup. eauto.
Qed.

(** ** The space key *)

Lemma key_space_at (g : Grid) (c : Cell) :
  cells_ok g -> cursor_ok g ->
  cells g !! cursor_index g = Some c ->
  key_space g
  = (let g1 := if open c then g else opened_at g (cursor_index g) c in
     if is_mine c then reveal_all g1 else Ok g1).
Proof.
  intros Hl Hcur Hc. unfold key_space.
  destruct (cursor_wrap g Hcur) as [-> Hlt].
  apply Z.ltb_lt in Hlt. rewrite Hlt.
  fold (cursor_index g) in *. rewrite (open_cell_Some g _ c Hc).
  fold (cursor_index g). cbn [bind]. cbv zeta.
  assert (Hi : (cursor_index g < length (cells g))%nat)
    by now apply cursor_index_lt.
  destruct (open c) eqn:Ho.
  - rewrite (read_cell_Some g _ c Hc). cbn [bind]. unfold is_mine.
    now destruct (type c).
  - rewrite (read_cell_Some _ _ (with_open c true)).
    + cbn [bind]. unfold is_mine. simpl. now destruct (type c).
    + unfold opened_at; simpl. fold (cursor_index g).
      now apply list_lookup_insert_eq.
Qed.

Lemma reveal_outcome_at (g : Grid) (c : Cell) :
  cursor_ok g ->
  cells g !! cursor_index g = Some c ->
  reveal_outcome g
  = Ok (if open c then AlreadyOpen
        else if is_mine c then Detonated else Opened).
Proof.
  intros Hcur Hc. unfold reveal_outcome, cell_at.
  destruct (cursor_wrap g Hcur) as [-> Hlt].
  replace (ROWS * COLS) with (COLS * ROWS) by reflexivity.
  apply Z.ltb_lt in Hlt. rewrite Hlt.
  rewrite (read_cell_Some g _ c Hc). cbn [bind]. unfold is_mine.
  destruct (open c); [reflexivity|]. now destruct (type c).
Qed.

Lemma opened_at_count (g : Grid) (i : nat) (c : Cell) :
  cells_ok g ->
  open_cells_count g = count_if open (cells g) ->
  cells g !! i = Some c -> open c = false ->
  open_cells_count (opened_at g i c) = open_cells_count g + 1
  /\ open_cells_count (opened_at g i c) = count_if open (cells (opened_at g i c))
  /\ cells_ok (opened_at g i c).
Proof.
  intros Hl Hn Hc Ho. unfold opened_at, cells_ok; simpl.
  rewrite (count_if_insert open _ _ c _ Hc), Ho, length_insert. simpl.
  pose proof (count_if_split open (cells g)) as Hs.
  pose proof (count_if_bounds (fun c => negb (open c)) (cells g)) as Hb.
  assert (Hneg : 1 <= count_if (fun c => negb (open c)) (cells g)).
  { destruct (list_elem_of_split_length _ _ _ Hc) as (l1 & l2 & -> & _).
    rewrite count_if_app, count_if_cons, Ho. simpl.
    pose proof (count_if_bounds (fun c => negb (open c)) l1).
    pose proof (count_if_bounds (fun c => negb (open c)) l2). lia. }
  rewrite Hl in Hs. unfold cells_ok in Hl.
  rewrite size_wrap_small; [repeat split; auto; lia|].
  unfold ROWS, COLS, SIZE_BITS in *. lia.
Qed.

Lemma reveal_at_cursor_at (g : Grid) (c : Cell) :
  cells_ok g -> cursor_ok g ->
  cells g !! cursor_index g = Some c ->
  reveal_at_cursor g
  = (g' <~ (let g1 := if open c then g else opened_at g (cursor_index g) c in
            if is_mine c then reveal_all g1 else Ok g1);
     Ok (g', if open c then AlreadyOpen
             else if is_mine c then Detonated else Opened)).
Proof.
  intros Hl Hcur Hc. unfold reveal_at_cursor.
  rewrite (reveal_outcome_at g c Hcur Hc). cbn [bind].
  now rewrite (key_space_at g c Hl Hcur Hc).
Qed.

Lemma fmap_with_open_id (l : list Cell) :
  forallb open l = true -> (fun c => with_open c true) <$> l = l.
Proof.
  induction l as [|c l IH]; [reflexivity|].
  rewrite fmap_cons. cbn [forallb].
  intros [Hc Hl]%andb_prop. rewrite (with_open_id c Hc). f_equal. auto.
Qed.

Lemma count_if_none (p : Cell -> bool) (l : list Cell) :
  forallb p l = true -> count_if (fun c => negb (p c)) l = 0.
Proof.
  intros Hp. pose proof (count_if_split p l). rewrite (count_if_all p l Hp) in *. lia.
Qed.

Lemma key_space_mine (g : Grid) (c : Cell) :
  grid_ok g ->
  cells g !! cursor_index g = Some c ->
  is_mine c = true ->
  exists g',
    key_space g = Ok g'
    /\ cells_ok g'
    /\ all_open g' = true
    /\ open_cells_count g' = ROWS * COLS
    /\ (cur_row g', cur_col g') = (cur_row g, cur_col g).
Proof.
  intros (Hl & Hcur & Hn) Hc Hm.
  rewrite (key_space_at g c Hl Hcur Hc), Hm. cbv zeta.
  set (g1 := if open c then g else opened_at g (cursor_index g) c).
  assert (H1 : cells_ok g1
               /\ open_cells_count g1 = count_if open (cells g1)
               /\ (cur_row g1, cur_col g1) = (cur_row g, cur_col g)).
  { subst g1. destruct (open c) eqn:Ho; [now repeat split|].
    destruct (opened_at_count g (cursor_index g) c Hl Hn Hc Ho) as (_ & ? & ?).
    now repeat split. }
  destruct H1 as (Hl1 & Hn1 & Hcur1).
  pose proof (count_if_bounds open (cells g1)) as Hb.
  pose proof (count_if_split open (cells g1)) as Hs.
  assert (Hlen : Z.of_nat (length (cells g1)) = ROWS * COLS)
    by (rewrite Hl1; reflexivity).
  rewrite reveal_all_ok by (auto; lia).
  eexists. split; [reflexivity|].
  unfold cells_ok, all_open; simpl.
  rewrite length_fmap, all_open_fmap. repeat split; auto. lia.
Qed.



(** In a state of a game an open mine under the cursor means that every
    cell is open already. *)
Lemma open_mine_all_open (g : Grid) (c : Cell) :
  detonation_inv g ->
  cells g !! cursor_index g = Some c ->
  open c = true ->
  is_mine c = false \/ all_open g = true.
Proof.
  intros Hinv Hc Ho. destruct (is_mine c) eqn:Hm; [right|now left].
  apply Hinv. unfold mine_shown. apply existsb_exists. exists c. split.
  - apply list_elem_of_In, list_elem_of_lookup. eauto.
  - now rewrite Hm, Ho.
Qed.

(** On a grid that satisfies the invariants of the game, revealing while
    the cell under the cursor is open changes nothing. *)
Lemma reveal_open_keeps_grid (g : Grid) (c : Cell) :
  game_ok g ->
  cells g !! cursor_index g = Some c ->
  open c = true ->
  reveal_at_cursor g = Ok (g, AlreadyOpen).
Proof.
  intros [(Hl & Hcur & Hn) Hinv] Hc Ho.
  rewrite (reveal_at_cursor_at g c Hl Hcur Hc), Ho. cbv zeta.
  destruct (is_mine c) eqn:Hm; [|reflexivity].
  destruct (open_mine_all_open g c Hinv Hc Ho) as [Hno|Hall]; [congruence|].
  unfold all_open in Hall.
  pose proof (count_if_bounds open (cells g)) as Hb.
  assert (Hlen : Z.of_nat (length (cells g)) = ROWS * COLS)
    by (rewrite Hl; reflexivity).
  rewrite reveal_all_ok by (auto; lia). cbn [bind].
  rewrite (fmap_with_open_id _ Hall), (count_if_none open _ Hall), Z.add_0_r.
  now destruct g.
Qed.

(** C5. On a grid that satisfies the data-model invariants, revealing a
    concealed empty cell adds exactly one to [open_cells_count], opens that
    cell and changes nothing else: every other cell, every flag and every
    kind stay as they were, and the outcome is [Opened]. *)
Theorem reveal_empty_opens_one (g : Grid) (c : Cell) :
  grid_ok g ->
  cells g !! cursor_index g = Some c ->
  open c = false ->
  type c = EMPTY ->
  exists g',
    reveal_at_cursor g = Ok (g', Opened)
    /\ open_cells_count g' = open_cells_count g + 1
    /\ cells g' !! cursor_index g = Some (mkCell (type c) true (flag c))
    /\ (forall j, j <> cursor_index g -> cells g' !! j = cells g !! j)
    /\ flag <$> cells g' = flag <$> cells g
    /\ type <$> cells g' = type <$> cells g
    /\ (cur_row g', cur_col g', mines_count g')
       = (cur_row g, cur_col g, mines_count g).
Proof.
  intros (Hl & Hcur & Hn) Hc Ho Ht.
  rewrite (reveal_at_cursor_at g c Hl Hcur Hc), Ho.
  assert (Hm : is_mine c = false) by (unfold is_mine; now rewrite Ht).
  rewrite Hm. cbv zeta. cbn [bind].
  destruct (opened_at_count g (cursor_index g) c Hl Hn Hc Ho) as (Hcnt & _ & _).
  pose proof (cursor_index_lt g Hl Hcur) as Hi.
  eexists. split; [reflexivity|]. split; [exact Hcnt|].
  unfold opened_at; simpl. repeat split.
  - now apply list_lookup_insert_eq.
  - intros j Hj. now apply list_lookup_insert_ne.
  - rewrite list_fmap_insert. apply list_insert_id.
    now rewrite list_lookup_fmap, Hc.
  - rewrite list_fmap_insert. apply list_insert_id.
    now rewrite list_lookup_fmap, Hc.
Qed.

Lemma reveal_empty_opens_one_witness :
  exists g',
    reveal_at_cursor blank_grid = Ok (g', Opened)
    /\ open_cells_count g' = open_cells_count blank_grid + 1
    /\ cells g' !! cursor_index blank_grid
       = Some (mkCell (type cleared_cell) true (flag cleared_cell))
    /\ (forall j, j <> cursor_index blank_grid -> cells g' !! j = cells blank_grid !! j)
    /\ flag <$> cells g' = flag <$> cells blank_grid
    /\ type <$> cells g' = type <$> cells blank_grid
    /\ (cur_row g', cur_col g', mines_count g')
       = (cur_row blank_grid, cur_col blank_grid, mines_count blank_grid).
Proof.
  apply (reveal_empty_opens_one blank_grid cleared_cell).
  - repeat split; vm_compute; congruence.
  - reflexivity.
  - reflexivity.
  - reflexivity.
Defined.

(** ** Cursor moves *)

Lemma handle_key_direction (rnd : nat -> Z) (fuel : nat) (d : Direction) (s : Game) :
  loop_step rnd fuel (key_of_direction d) s
  = Ok (with_grid s (move_cursor d (grid s))).
Proof. destruct d; reflexivity. Qed.

Lemma move_cursor_frame (d : Direction) (g : Grid) :
  cells (move_cursor d g) = cells g
  /\ mines_count (move_cursor d g) = mines_count g
  /\ open_cells_count (move_cursor d g) = open_cells_count g.
Proof.
  destruct d; simpl; unfold key_w, key_s, key_a, key_d;
    match goal with |- context [if ?b then _ else _] => destruct b end;
    repeat split.
Qed.

Lemma move_cursor_cursor_ok (d : Direction) (g : Grid) :
  cursor_ok g -> cursor_ok (move_cursor d g).
Proof.
  unfold cursor_ok, ROWS, COLS. intros Hc.
  destruct d; simpl; unfold key_w, key_s, key_a, key_d, ROWS, COLS;
    rewrite ?Z.gtb_ltb;
    match goal with |- context [if ?a <? ?b then _ else _] =>
      destruct (Z.ltb_spec a b)
    end; simpl; try lia;
    rewrite size_wrap_small by (unfold SIZE_BITS; lia); lia.
Qed.

Lemma move_cursor_boundary (d : Direction) (g : Grid) :
  against_boundary d g = true -> move_cursor d g = g.
Proof.
  destruct d; simpl; unfold key_w, key_s, key_a, key_d, ROWS, COLS;
    intros ->%Z.eqb_eq; reflexivity.
Qed.

Lemma moves_cursor_ok (ds : list Direction) (g : Grid) :
  cursor_ok g -> cursor_ok (foldl (fun g d => move_cursor d g) g ds).
Proof.
  revert g. induction ds as [|d ds IH]; intros g Hc; simpl; [assumption|].
  apply IH. now apply move_cursor_cursor_ok.
Qed.

Lemma moves_frame (ds : list Direction) (g : Grid) :
  cells (foldl (fun g d => move_cursor d g) g ds) = cells g
  /\ mines_count (foldl (fun g d => move_cursor d g) g ds) = mines_count g
  /\ open_cells_count (foldl (fun g d => move_cursor d g) g ds)
     = open_cells_count g.
Proof.
  revert g. induction ds as [|d ds IH]; intros g; simpl; [repeat split|].
  destruct (IH (move_cursor d g)) as (-> & -> & ->).
  apply move_cursor_frame.
Qed.

Lemma run_moves (rnd : nat -> Z) (fuel : nat) (ds : list Direction) (s : Game) :
  run_keys rnd fuel (key_of_direction <$> ds) s
  = Ok (with_grid s (foldl (fun g d => move_cursor d g) (grid s) ds)).
Proof.
  unfold run_keys. revert s. induction ds as [|d ds IH]; intros s.
  - simpl. now destruct s.
  - rewrite fmap_cons. cbn [for_each]. rewrite handle_key_direction.
    cbn [bind]. rewrite IH. reflexivity.
Qed.

(** C6. From a state whose cursor is on the grid, any sequence of moves is
    handled without error and leaves the cursor on the grid; the cells and
    the counters are untouched; a move against a boundary returns the
    state it was given. *)
Theorem moves_stay_on_grid (rnd : nat -> Z) (fuel : nat)
        (ds : list Direction) (s : Game) :
  cursor_ok (grid s) ->
  (exists s',
      run_keys rnd fuel (key_of_direction <$> ds) s = Ok s'
      /\ cursor_ok (grid s')
      /\ cells (grid s') = cells (grid s)
      /\ mines_count (grid s') = mines_count (grid s)
      /\ open_cells_count (grid s') = open_cells_count (grid s)
      /\ quit s' = quit s)
  /\ (forall d, against_boundary d (grid s) = true ->
                loop_step rnd fuel (key_of_direction d) s = Ok s).
Proof.
  intros Hc. split.
  - eexists. split; [apply run_moves|]. simpl.
    destruct (moves_frame ds (grid s)) as (? & ? & ?).
    split; [now apply moves_cursor_ok|]. repeat split; auto.
  - intros d Hd. rewrite handle_key_direction, (move_cursor_boundary d _ Hd).
    now destruct s.
Qed.

Lemma moves_stay_on_grid_witness :
  (exists s',
      run_keys cyc 0 (key_of_direction <$> [Up; Left; Down; Right; Right; Up; Up])
               (mkGame blank_grid false 0) = Ok s'
      /\ cursor_ok (grid s')
      /\ cells (grid s') = cells blank_grid
      /\ mines_count (grid s') = mines_count blank_grid
      /\ open_cells_count (grid s') = open_cells_count blank_grid
      /\ quit s' = false)
  /\ (forall d, against_boundary d blank_grid = true ->
                loop_step cyc 0 (key_of_direction d) (mkGame blank_grid false 0)
                = Ok (mkGame blank_grid false 0)).
Proof.
  apply (moves_stay_on_grid cyc 0 [Up; Left; Down; Right; Right; Up; Up]
                            (mkGame blank_grid false 0)).
  vm_compute. repeat split; congruence.
Defined.

(** ** count_nbors *)

Lemma int_of_size_small (x : Z) : 0 <= x <= INT_MAX -> int_of_size x = x.
Proof.
  unfold int_of_size, INT_MAX. intros Hx.
  rewrite Z.mod_small by lia. lia.
Qed.

Lemma cell_at_on_grid (g : Grid) (r c : Z) :
  cells_ok g -> on_grid (r, c) = true ->
  exists cell,
    cells g !! Z.to_nat (r * COLS + c) = Some cell
    /\ cell_at g (size_wrap r) (size_wrap c) = Ok cell.
Proof.
  unfold cells_ok, on_grid, ROWS, COLS. simpl. intros Hl Hin.
  apply negb_true_iff in Hin.
  repeat (apply orb_false_iff in Hin as [Hin ?]).
  assert (Hr : 0 <= r < 10) by lia. assert (Hc : 0 <= c < 10) by lia.
  destruct (lookup_lt_is_Some_2 (cells g) (Z.to_nat (r * 10 + c))) as [cell Hcell];
    [lia|].
  exists cell. split; [assumption|]. unfold cell_at, ROWS, COLS.
  rewrite (size_wrap_small r), (size_wrap_small c),
    (size_wrap_small (r * 10 + c)) by (unfold SIZE_BITS; lia).
  destruct (Z.ltb_spec (r * 10 + c) (10 * 10)); [|lia].
  now apply read_cell_Some.
Qed.

Lemma tally_one (g : Grid) (p : Z * Z) :
  Z.of_nat (length (List.filter (mine_at g) (List.filter on_grid [p])))
  = if on_grid p && mine_at g p then 1 else 0.
Proof. simpl. destruct (on_grid p); simpl; [|reflexivity]. now destruct (mine_at g p). Qed.

Lemma nbor_step_tally (g : Grid) (row col dy nbors dx : Z) :
  cells_ok g ->
  0 <= row < INT_MAX -> 0 <= col < INT_MAX ->
  -1 <= dy <= 1 -> -1 <= dx <= 1 ->
  0 <= nbors < 2 ^ SIZE_BITS - 1 ->
  nbor_step g row col dy nbors dx
  = Ok (nbors + probe_tally g (offsets_row row col dy [dx])).
Proof.
  intros Hl Hrow Hcol Hdy Hdx Hn.
  unfold probe_tally, nbor_step, offsets_row. cbn [List.flat_map].
  destruct ((dx =? 0) && (dy =? 0)); [simpl; f_equal; lia|].
  rewrite app_nil_r, tally_one.
  rewrite !int_of_size_small by (unfold INT_MAX in *; lia).
  unfold int_add.
  assert (Hr : (INT_MIN <=? row + dy) && (row + dy <=? INT_MAX) = true)
    by (unfold INT_MIN, INT_MAX in *; lia).
  assert (Hc : (INT_MIN <=? col + dx) && (col + dx <=? INT_MAX) = true)
    by (unfold INT_MIN, INT_MAX in *; lia).
  cbv zeta. rewrite Hr, Hc. cbn [bind].
  assert (Hg : (row + dy <? 0) || (row + dy >=? ROWS) || (col + dx <? 0)
               || (col + dx >=? COLS) = negb (on_grid (row + dy, col + dx)))
    by (unfold on_grid; simpl; now rewrite negb_involutive).
  rewrite Hg.
  destruct (on_grid (row + dy, col + dx)) eqn:Hin; simpl negb; cbv iota.
  - destruct (cell_at_on_grid g _ _ Hl Hin) as (cell & Hcell & ->). cbn [bind].
    unfold mine_at, is_mine. simpl fst. simpl snd. rewrite Hcell.
    destruct (type cell); simpl; f_equal; try lia.
    apply size_wrap_small. lia.
  - simpl. f_equal. lia.
Qed.

Lemma probe_tally_app (g : Grid) (l1 l2 : list (Z * Z)) :
  probe_tally g (l1 ++ l2) = probe_tally g l1 + probe_tally g l2.
Proof. unfold probe_tally. rewrite !List.filter_app, length_app. lia. Qed.

Lemma probe_tally_bounds (g : Grid) (l : list (Z * Z)) :
  0 <= probe_tally g l <= Z.of_nat (length l).
Proof.
  unfold probe_tally.
  pose proof (List.filter_length_le (mine_at g) (List.filter on_grid l)).
  pose proof (List.filter_length_le on_grid l). lia.
Qed.

Lemma offsets_row_cons (row col dy dx : Z) (dxs : list Z) :
  offsets_row row col dy (dx :: dxs)
  = offsets_row row col dy [dx] ++ offsets_row row col dy dxs.
Proof. unfold offsets_row. simpl. now rewrite app_nil_r. Qed.

Lemma offsets_row_length (row col dy : Z) (dxs : list Z) :
  (length (offsets_row row col dy dxs) <= length dxs)%nat.
Proof.
  induction dxs as [|dx dxs IH]; [simpl; lia|].
  rewrite offsets_row_cons, length_app. unfold offsets_row at 1. simpl.
  destruct ((dx =? 0) && (dy =? 0)); simpl; lia.
Qed.

Section Neighbours.

Variables (g : Grid) (row col : Z).
Hypothesis cells_whole : cells_ok g.
Hypothesis row_int : 0 <= row < INT_MAX.
Hypothesis col_int : 0 <= col < INT_MAX.

Lemma inner_loop_tally (dy : Z) (dxs : list Z) :
  -1 <= dy <= 1 ->
  Forall (fun dx => -1 <= dx <= 1) dxs ->
  forall nbors,
    0 <= nbors -> nbors + Z.of_nat (length dxs) < 2 ^ SIZE_BITS ->
    for_each (nbor_step g row col dy) dxs nbors
    = Ok (nbors + probe_tally g (offsets_row row col dy dxs)).
Proof.
  intros Hdy. induction 1 as [|dx dxs Hdx _ IH]; intros nbors H0 Hlt.
  - cbn [for_each]. unfold probe_tally. simpl. now rewrite Z.add_0_r.
  - cbn [for_each length] in *.
    rewrite nbor_step_tally by (auto; lia). cbn [bind].
    pose proof (probe_tally_bounds g (offsets_row row col dy [dx])) as Hb.
    pose proof (offsets_row_length row col dy [dx]) as Hlen. cbn [length] in Hlen.
    rewrite IH by lia.
    rewrite (offsets_row_cons _ _ _ dx dxs), probe_tally_app. f_equal. lia.
Qed.

Lemma outer_loop_tally (dys : list Z) :
  Forall (fun dy => -1 <= dy <= 1) dys ->
  forall nbors,
    0 <= nbors -> nbors + 3 * Z.of_nat (length dys) < 2 ^ SIZE_BITS ->
    for_each (fun nbors dy => for_each (nbor_step g row col dy) [-1; 0; 1] nbors)
             dys nbors
    = Ok (nbors
          + probe_tally g
              (List.flat_map (fun dy => offsets_row row col dy [-1; 0; 1]) dys)).
Proof.
  induction 1 as [|dy dys Hdy _ IH]; intros nbors H0 Hlt.
  - cbn [for_each]. unfold probe_tally. simpl. now rewrite Z.add_0_r.
  - cbn [length List.flat_map] in *. rewrite for_each_cons. cbv beta.
    rewrite inner_loop_tally; [| assumption | repeat constructor; lia | lia
                               | simpl; lia].
    cbn [bind].
    pose proof (probe_tally_bounds g (offsets_row row col dy [-1; 0; 1])) as Hb.
    pose proof (offsets_row_length row col dy [-1; 0; 1]) as Hlen.
    cbn [length] in Hlen.
    rewrite IH by lia. rewrite probe_tally_app. f_equal. lia.
Qed.

Lemma count_nbors_probed :
  count_nbors g row col
  = Ok (Z.of_nat (length (List.filter (mine_at g) (probed row col)))).
Proof.
  unfold count_nbors.
  rewrite outer_loop_tally; [reflexivity | repeat constructor; lia | lia |].
  unfold SIZE_BITS. simpl. lia.
Qed.

End Neighbours.

(** The positions read by the loops are the neighbours on the grid. *)

Lemma filter_nil_intro {A : Type} (f : A -> bool) (l : list A) :
  (forall x, In x l -> f x = false) -> List.filter f l = [].
Proof.
  induction l as [|x l IH]; intros Hf; simpl; [reflexivity|].
  rewrite (Hf x) by now left. apply IH. intros y Hy. apply Hf. now right.
Qed.

Lemma all_positions_spec (p : Z * Z) :
  In p all_positions <-> (0 <= fst p < ROWS /\ 0 <= snd p < COLS).
Proof.
  unfold all_positions. rewrite in_flat_map. split.
  - intros (r & Hr & Hp). apply in_map_iff in Hp as (c & <- & Hc).
    apply list_elem_of_In, elem_of_seqZ in Hr, Hc. simpl. lia.
  - intros [Hr Hc]. exists (fst p). split.
    + apply list_elem_of_In, elem_of_seqZ. lia.
    + apply in_map_iff. exists (snd p). split; [now destruct p|].
      apply list_elem_of_In, elem_of_seqZ. lia.
Qed.

Lemma moore_neighbors_spec (row col : Z) (p : Z * Z) :
  In p (moore_neighbors row col)
  <-> (0 <= fst p < ROWS /\ 0 <= snd p < COLS) /\ adjacent (row, col) p = true.
Proof. unfold moore_neighbors. now rewrite filter_In, all_positions_spec. Qed.

Lemma moore_far (row col : Z) :
  ROWS < row \/ COLS < col -> moore_neighbors row col = [].
Proof.
  intros Hfar. apply filter_nil_intro. intros p Hp%all_positions_spec.
  unfold adjacent, ROWS, COLS in *. simpl. lia.
Qed.

Lemma probed_far (row col : Z) :
  ROWS < row \/ COLS < col -> probed row col = [].
Proof.
  intros Hfar. apply filter_nil_intro. intros p Hp. simpl in Hp.
  unfold on_grid, ROWS, COLS in *.
  repeat (destruct Hp as [<- | Hp]; [simpl; lia|]). destruct Hp.
Qed.

Lemma probed_moore_near :
  forallb (fun r =>
             forallb (fun c => bool_decide (probed r c = moore_neighbors r c))
                     (seqZ 0 11))
          (seqZ 0 11) = true.
Proof. vm_compute. reflexivity. Qed.

Lemma probed_moore (row col : Z) :
  0 <= row -> 0 <= col -> probed row col = moore_neighbors row col.
Proof.
  intros Hr Hc.
  destruct (Z_lt_dec ROWS row) as [Hfar|Hrow];
    [now rewrite probed_far, moore_far by now left|].
  destruct (Z_lt_dec COLS col) as [Hfar|Hcol];
    [now rewrite probed_far, moore_far by now right|].
  pose proof probed_moore_near as Hall. rewrite forallb_forall in Hall.
  specialize (Hall row). rewrite forallb_forall in Hall.
  unfold ROWS, COLS in *.
  eapply bool_decide_eq_true_1, Hall; apply list_elem_of_In, elem_of_seqZ; lia.
Qed.

Lemma moore_length_near :
  forallb (fun r =>
             forallb (fun c => Nat.eqb (length (moore_neighbors r c))
                                       (expected_neighbors r c))
                     (seqZ 0 COLS))
          (seqZ 0 ROWS) = true.
Proof. vm_compute. reflexivity. Qed.

Lemma moore_length (row col : Z) :
  0 <= row < ROWS -> 0 <= col < COLS ->
  length (moore_neighbors row col) = expected_neighbors row col.
Proof.
  intros Hr Hc.
  pose proof moore_length_near as Hall. rewrite forallb_forall in Hall.
  specialize (Hall row). rewrite forallb_forall in Hall.
  apply Nat.eqb_eq, Hall; apply list_elem_of_In, elem_of_seqZ; lia.
Qed.

Lemma count_nbors_neighbor_mines (g : Grid) (row col : Z) :
  cells_ok g -> 0 <= row < INT_MAX -> 0 <= col < INT_MAX ->
  count_nbors g row col = Ok (neighbor_mines g row col).
Proof.
  intros Hl Hr Hc. rewrite count_nbors_probed by assumption.
  unfold neighbor_mines. now rewrite probed_moore by lia.
Qed.

(** C7. For a position on the grid, [count_nbors] returns the number of
    mines among the positions of the grid around it, a value between 0 and
    8; the positions its loops read are those neighbours, of which a corner
    has 3, a cell on an edge 5 and a cell inside 8. *)
Theorem count_nbors_on_grid (g : Grid) (row col : Z) :
  cells_ok g ->
  0 <= row < ROWS -> 0 <= col < COLS ->
  count_nbors g row col = Ok (neighbor_mines g row col)
  /\ 0 <= neighbor_mines g row col <= 8
  /\ probed row col = moore_neighbors row col
  /\ length (moore_neighbors row col) = expected_neighbors row col
  /\ (forall p, In p (moore_neighbors row col)
                <-> (0 <= fst p < ROWS /\ 0 <= snd p < COLS)
                    /\ adjacent (row, col) p = true).
Proof.
  intros Hl Hr Hc.
  assert (Hlen := moore_length row col Hr Hc).
  split.
  { apply count_nbors_neighbor_mines; unfold ROWS, COLS, INT_MAX in *; auto; lia. }
  split.
  { unfold neighbor_mines.
    pose proof (List.filter_length_le (mine_at g) (moore_neighbors row col)) as Hle.
    rewrite Hlen in Hle. unfold expected_neighbors in Hle.
    destruct (on_border row ROWS), (on_border col COLS); lia. }
  split; [apply probed_moore; lia|].
  split; [assumption|].
  intros p. apply moore_neighbors_spec.
Qed.

Lemma count_nbors_on_grid_witness :
  count_nbors hidden_mine_grid 1 1 = Ok (neighbor_mines hidden_mine_grid 1 1)
  /\ 0 <= neighbor_mines hidden_mine_grid 1 1 <= 8
  /\ probed 1 1 = moore_neighbors 1 1
  /\ length (moore_neighbors 1 1) = expected_neighbors 1 1
  /\ (forall p, In p (moore_neighbors 1 1)
                <-> (0 <= fst p < ROWS /\ 0 <= snd p < COLS)
                    /\ adjacent (1, 1) p = true).
Proof.
  apply (count_nbors_on_grid hidden_mine_grid 1 1).
  - reflexivity.
  - unfold ROWS. lia.
  - unfold COLS. lia.
Defined.

Lemma nbor_step_no_assert (g : Grid) (row col dy nbors dx : Z) :
  cells_ok g -> nbor_step g row col dy nbors dx <> AssertFailed.
Proof.
  intros Hl. unfold nbor_step.
  destruct ((dx =? 0) && (dy =? 0)); [discriminate|].
  unfold int_add. cbv zeta.
  destruct ((INT_MIN <=? int_of_size row + dy) && (int_of_size row + dy <=? INT_MAX));
    cbn [bind]; [|discriminate].
  destruct ((INT_MIN <=? int_of_size col + dx) && (int_of_size col + dx <=? INT_MAX));
    cbn [bind]; [|discriminate].
  set (r := int_of_size row + dy). set (c := int_of_size col + dx).
  assert (Hg : (r <? 0) || (r >=? ROWS) || (c <? 0) || (c >=? COLS)
               = negb (on_grid (r, c)))
    by (unfold on_grid; simpl; now rewrite negb_involutive).
  rewrite Hg. destruct (on_grid (r, c)) eqn:Hin; simpl negb; cbv iota;
    [|discriminate].
  destruct (cell_at_on_grid g _ _ Hl Hin) as (cell & _ & ->). cbn [bind].
  destruct (type cell); discriminate.
Qed.

Lemma for_each_no_assert {A S : Type} (body : S -> A -> result S) (l : list A) :
  (forall s x, body s x <> AssertFailed) ->
  forall s, for_each body l s <> AssertFailed.
Proof.
  intros Hb. induction l as [|x l IH]; intros s; simpl; [discriminate|].
  specialize (Hb s x). destruct (body s x); simpl; auto; discriminate.
Qed.

Lemma count_nbors_no_assert (g : Grid) (row col : Z) :
  cells_ok g -> count_nbors g row col <> AssertFailed.
Proof.
  intros Hl. unfold count_nbors. apply for_each_no_assert. intros n dy.
  apply for_each_no_assert. intros n' dx. now apply nbor_step_no_assert.
Qed.

(** The additions [(int)row + dy] and [(int)col + dx] are the only steps of
    [count_nbors] that can go wrong, and they go wrong by overflow. *)
Lemma nbor_step_settled (g : Grid) (row col dy nbors dx : Z) :
  cells_ok g ->
  (exists n, nbor_step g row col dy nbors dx = Ok n)
  \/ nbor_step g row col dy nbors dx = Undefined.
Proof.
  intros Hl. unfold nbor_step.
  destruct ((dx =? 0) && (dy =? 0)); [left; eauto|].
  unfold int_add. cbv zeta.
  destruct ((INT_MIN <=? int_of_size row + dy) && (int_of_size row + dy <=? INT_MAX));
    cbn [bind]; [|now right].
  destruct ((INT_MIN <=? int_of_size col + dx) && (int_of_size col + dx <=? INT_MAX));
    cbn [bind]; [|now right].
  set (r := int_of_size row + dy). set (c := int_of_size col + dx).
  assert (Hg : (r <? 0) || (r >=? ROWS) || (c <? 0) || (c >=? COLS)
               = negb (on_grid (r, c)))
    by (unfold on_grid; simpl; now rewrite negb_involutive).
  rewrite Hg. destruct (on_grid (r, c)) eqn:Hin; simpl negb; cbv iota;
    [|left; eauto].
  destruct (cell_at_on_grid g _ _ Hl Hin) as (cell & _ & ->). cbn [bind].
  left. destruct (type cell); eauto.
Qed.

Lemma nbor_row_settled (g : Grid) (row col dy : Z) (l : list Z) :
  cells_ok g ->
  forall nbors,
    (exists n, for_each (nbor_step g row col dy) l nbors = Ok n)
    \/ for_each (nbor_step g row col dy) l nbors = Undefined.
Proof.
  intros Hl. induction l as [|dx l IH]; intros nbors; cbn [for_each];
    [left; eauto|].
  destruct (nbor_step_settled g row col dy nbors dx Hl) as [[n ->]| ->];
    cbn [bind]; [apply IH | now right].
Qed.

Lemma nbor_step_row_overflow (g : Grid) (row col nbors dx : Z) :
  int_of_size row = INT_MAX ->
  nbor_step g row col 1 nbors dx = Undefined.
Proof.
  intros Hr. unfold nbor_step. rewrite Hr.
  replace ((dx =? 0) && (1 =? 0)) with false by now rewrite andb_false_r.
  reflexivity.
Qed.

Lemma nbor_step_col_overflow (g : Grid) (row col dy nbors : Z) :
  int_of_size col = INT_MAX ->
  nbor_step g row col dy nbors 1 = Undefined.
Proof.
  intros Hc. unfold nbor_step. rewrite Hc.
  change ((1 =? 0) && (dy =? 0)) with false. cbv iota.
  unfold int_add at 1. cbv zeta.
  destruct ((INT_MIN <=? int_of_size row + dy) && (int_of_size row + dy <=? INT_MAX));
    reflexivity.
Qed.

(** A coordinate equal to [INT_MAX] makes [count_nbors] compute
    [INT_MAX + 1] on [int]. *)
Lemma count_nbors_overflow (g : Grid) (row col : Z) :
  cells_ok g ->
  0 <= row <= INT_MAX -> 0 <= col <= INT_MAX ->
  row = INT_MAX \/ col = INT_MAX ->
  count_nbors g row col = Undefined.
Proof.
  intros Hl Hr Hc Hmax. unfold count_nbors.
  destruct (Z.eq_dec col INT_MAX) as [Hcol|Hcol].
  - assert (Hic : int_of_size col = INT_MAX)
      by (rewrite int_of_size_small; auto).
    cbn [for_each].
    destruct (nbor_step_settled g row col (-1) 0 (-1) Hl) as [[n1 ->]| ->];
      cbn [bind]; [|reflexivity].
    destruct (nbor_step_settled g row col (-1) n1 0 Hl) as [[n2 ->]| ->];
      cbn [bind]; [|reflexivity].
    now rewrite nbor_step_col_overflow.
  - assert (Hir : int_of_size row = INT_MAX)
      by (rewrite int_of_size_small; auto; lia).
    rewrite for_each_cons.
    destruct (nbor_row_settled g row col (-1) [-1; 0; 1] Hl 0) as [[n1 ->]| ->];
      cbn [bind]; [|reflexivity].
    rewrite for_each_cons.
    destruct (nbor_row_settled g row col 0 [-1; 0; 1] Hl n1) as [[n2 ->]| ->];
      cbn [bind]; [|reflexivity].
    cbn [for_each]. now rewrite nbor_step_row_overflow.
Qed.

(** C8, as the code has it. [count_nbors] checks the positions around
    [(row, col)], not [(row, col)] itself.  Called for a position off the
    grid whose coordinates are values of [int] (at most [INT_MAX]), it
    never ends in an assertion failure.  While both coordinates are below
    [INT_MAX] it returns the number of mines among the positions of the
    grid around [(row, col)], which is 0 when the position is not next to
    the grid; when a coordinate is [INT_MAX], the addition of 1 to it
    overflows [int] and no count is defined. *)
Theorem count_nbors_off_grid (g : Grid) (row col : Z) :
  cells_ok g ->
  0 <= row <= INT_MAX -> 0 <= col <= INT_MAX ->
  ROWS <= row \/ COLS <= col ->
  count_nbors g row col <> AssertFailed
  /\ (row < INT_MAX /\ col < INT_MAX ->
      count_nbors g row col = Ok (neighbor_mines g row col)
      /\ (ROWS < row \/ COLS < col -> count_nbors g row col = Ok 0))
  /\ (row = INT_MAX \/ col = INT_MAX -> count_nbors g row col = Undefined).
Proof.
  intros Hl Hr Hc _. split; [now apply count_nbors_no_assert|]. split.
  - intros [Hr' Hc'].
    rewrite count_nbors_neighbor_mines by (auto; lia).
    split; [reflexivity|]. intros Hfar. unfold neighbor_mines.
    now rewrite moore_far.
  - now apply count_nbors_overflow.
Qed.

Lemma count_nbors_off_grid_witness :
  count_nbors full_mine_grid 10 5 <> AssertFailed
  /\ count_nbors full_mine_grid 10 5 = Ok (neighbor_mines full_mine_grid 10 5)
  /\ (ROWS < 10 \/ COLS < 5 -> count_nbors full_mine_grid 10 5 = Ok 0).
Proof.
  destruct (count_nbors_off_grid full_mine_grid 10 5) as (Hno & Hcount & _).
  - reflexivity.
  - unfold INT_MAX. lia.
  - unfold INT_MAX. lia.
  - left. unfold ROWS. lia.
  - split; [exact Hno|]. apply Hcount. unfold INT_MAX. lia.
Defined.

(** C8 fails as stated: row 10 is off the grid, and [count_nbors] returns
    the three mines of row 9 next to it. *)
Lemma off_grid_query_returns_count :
  ~ (0 <= 10 < ROWS)
  /\ count_nbors full_mine_grid 10 5 = Ok 3.
Proof. split; [unfold ROWS; lia | vm_compute; reflexivity]. Qed.

(** ** clear_grid *)

Lemma clear_sweep (suf : list Cell) :
  forall pre : list Cell,
    foldl clear_cell (pre ++ suf)
          (seqZ (Z.of_nat (length pre)) (Z.of_nat (length suf)))
    = pre ++ replicate (length suf) cleared_cell.
Proof.
  induction suf as [|c suf IH]; intros pre; [reflexivity|].
  cbn [length]. rewrite seqZ_succ. cbn [foldl]. unfold clear_cell at 2.
  rewrite Nat2Z.id, insert_app_r_alt, Nat.sub_diag by lia. cbn [insert list_insert].
  replace (Z.of_nat (length pre) + 1)
    with (Z.of_nat (length (pre ++ [cleared_cell])))
    by (rewrite length_app; simpl; lia).
  replace (pre ++ cleared_cell :: suf) with ((pre ++ [cleared_cell]) ++ suf)
    by now rewrite <- app_assoc.
  rewrite IH, <- app_assoc. reflexivity.
Qed.

Lemma clear_grid_ok (g : Grid) :
  cells_ok g ->
  clear_grid g = mkGrid (replicate 100 cleared_cell) 0 0 (mines_count g) 0.
Proof.
  intros Hl. unfold clear_grid. f_equal.
  replace (ROWS * COLS) with (Z.of_nat (length (cells g)))
    by (rewrite Hl; reflexivity).
  pose proof (clear_sweep (cells g) []) as Hs. cbn [app length] in Hs.
  change (Z.of_nat 0) with 0 in Hs. rewrite Hs, Hl. reflexivity.
Qed.

Lemma placing_cleared (g : Grid) (m : Z) :
  cells_ok g -> placing (with_mines_count (clear_grid g) m) 0.
Proof.
  intros Hl. rewrite (clear_grid_ok g Hl). repeat split.
Qed.

(** ** One iteration of the placement loop *)

Lemma randi_bounds (rnd : nat -> Z) (k : nat) :
  rand_ok rnd -> 0 <= randi rnd 9 k < 10.
Proof.
  intros Hr. unfold randi. rewrite Z.rem_mod_nonneg by (try apply Hr; lia).
  apply Z.mod_pos_bound. lia.
Qed.

Lemma drawn_on_grid (rnd : nat -> Z) (k : nat) :
  rand_ok rnd ->
  on_grid (randi rnd (ROWS - 1) k, randi rnd (COLS - 1) (S k)) = true
  /\ (drawn rnd k < 100)%nat.
Proof.
  intros Hr. unfold on_grid, drawn, ROWS, COLS. simpl.
  pose proof (randi_bounds rnd k Hr). pose proof (randi_bounds rnd (S k) Hr).
  change (10 - 1) with 9. split; lia.
Qed.

Lemma randomize_loop_step (rnd : nat -> Z) (fuel : nat) (g : Grid) (placed : Z)
      (k : nat) :
  rand_ok rnd -> cells_ok g -> placed < mines_count g ->
  exists cell,
    cells g !! drawn rnd k = Some cell
    /\ randomize_loop rnd (S fuel) g placed k
       = if is_mine cell then randomize_loop rnd fuel g placed (S (S k))
         else randomize_loop rnd fuel (mined_at g (drawn rnd k) cell)
                             (size_wrap (placed + 1)) (S (S k)).
Proof.
  intros Hr Hl Hlt. cbn [randomize_loop].
  apply Z.ltb_lt in Hlt. rewrite Hlt.
  destruct (drawn_on_grid rnd k Hr) as [Hin _].
  destruct (cell_at_on_grid g _ _ Hl Hin) as (cell & Hcell & Hat).
  exists cell. split; [exact Hcell|]. cbv zeta. rewrite Hat. cbn [bind].
  unfold is_mine. destruct (type cell) eqn:Ht; try reflexivity.
  all: unfold set_cell; cbv zeta.
  all: pose proof (randi_bounds rnd k Hr); pose proof (randi_bounds rnd (S k) Hr).
  all: change (ROWS - 1) with 9 in *; change (COLS - 1) with 9 in *.
  all: rewrite (size_wrap_small (randi rnd 9 k)),
         (size_wrap_small (randi rnd 9 (S k))) by (unfold SIZE_BITS; lia).
  all: rewrite size_wrap_small by (unfold SIZE_BITS, COLS; lia).
  all: rewrite (read_cell_Some g _ cell Hcell); reflexivity.
Qed.

Lemma placing_count_le (g : Grid) (placed : Z) :
  placing g placed -> 0 <= placed <= ROWS * COLS.
Proof.
  intros (Hl & _ & <- & _). pose proof (count_if_bounds is_mine (cells g)) as Hb.
  rewrite Hl in Hb. exact Hb.
Qed.

Lemma placing_mined (g : Grid) (placed : Z) (i : nat) (c : Cell) :
  placing g placed -> cells g !! i = Some c -> is_mine c = false ->
  placing (mined_at g i c) (placed + 1)
  /\ mines_count (mined_at g i c) = mines_count g.
Proof.
  intros (Hl & Hcon & Hcnt & Hr & Hc & Ho) Hi Hm.
  split; [|reflexivity]. unfold placing, mined_at, cells_ok; simpl.
  rewrite length_insert, (count_if_insert is_mine _ _ c _ Hi), Hm, Hcnt.
  change (is_mine (with_type c MINE)) with true. cbv iota.
  repeat split; auto; [|lia].
  apply forallb_insert; [assumption|].
  pose proof (forallb_lookup _ _ _ _ Hcon Hi) as Hcc.
  unfold concealed, is_mine in *; simpl.
  apply andb_prop in Hcc as [Hcc _]. now rewrite Hcc.
Qed.

Section Placement.

Variable rnd : nat -> Z.
Hypothesis rnd_ok : rand_ok rnd.

(** Whatever the loop returns is the cleared grid with as many mines as
    asked for. *)
Lemma randomize_loop_sound (fuel : nat) :
  forall (g : Grid) (placed : Z) (k : nat) (g' : Grid) (k' : nat),
    placing g placed ->
    placed <= mines_count g < 2 ^ SIZE_BITS ->
    randomize_loop rnd fuel g placed k = Ok (g', k') ->
    placing g' (mines_count g) /\ mines_count g' = mines_count g.
Proof.
  induction fuel as [|fuel IH]; intros g placed k g' k' Hp Hm Hrun.
  - simpl in Hrun. destruct (Z.ltb_spec placed (mines_count g)); [discriminate|].
    injection Hrun as <- <-. replace (mines_count g) with placed by lia. now split.
  - destruct (Z.ltb_spec placed (mines_count g)) as [Hlt|Hge].
    + destruct (randomize_loop_step rnd fuel g placed k rnd_ok (proj1 Hp) Hlt)
        as (cell & Hcell & Heq).
      rewrite Heq in Hrun. pose proof (placing_count_le g placed Hp) as Hb.
      destruct (is_mine cell) eqn:Hmine.
      * now apply (IH g placed (S (S k)) g' k').
      * rewrite size_wrap_small in Hrun by lia.
        destruct (placing_mined g placed _ cell Hp Hcell Hmine) as [Hp1 Hm1].
        rewrite <- Hm1. apply (IH _ (placed + 1) (S (S k)) g' k'); auto.
        rewrite Hm1. lia.
    + cbn [randomize_loop] in Hrun. apply Z.ltb_ge in Hge. rewrite Hge in Hrun.
      injection Hrun as <- <-. apply Z.ltb_ge in Hge.
      replace (mines_count g) with placed by lia. now split.
Qed.

(** The loop never trips the assertion of [cell_at] and never reads or
    writes outside the array. *)
Lemma randomize_loop_no_failure (fuel : nat) :
  forall (g : Grid) (placed : Z) (k : nat),
    placing g placed ->
    mines_count g < 2 ^ SIZE_BITS ->
    randomize_loop rnd fuel g placed k <> AssertFailed
    /\ randomize_loop rnd fuel g placed k <> Undefined.
Proof.
  induction fuel as [|fuel IH]; intros g placed k Hp Hm.
  - simpl. destruct (placed <? mines_count g); split; discriminate.
  - destruct (Z.ltb_spec placed (mines_count g)) as [Hlt|Hge].
    + destruct (randomize_loop_step rnd fuel g placed k rnd_ok (proj1 Hp) Hlt)
        as (cell & Hcell & ->).
      pose proof (placing_count_le g placed Hp) as Hb.
      destruct (is_mine cell) eqn:Hmine; [now apply IH|].
      rewrite size_wrap_small by lia.
      destruct (placing_mined g placed _ cell Hp Hcell Hmine) as [Hp1 Hm1].
      apply IH; [assumption | now rewrite Hm1].
    + cbn [randomize_loop]. apply Z.ltb_ge in Hge. rewrite Hge.
      split; discriminate.
Qed.

(** With more mines asked for than the grid has cells the loop has no
    last iteration. *)
Lemma randomize_loop_diverges (fuel : nat) :
  forall (g : Grid) (placed : Z) (k : nat),
    placing g placed ->
    ROWS * COLS < mines_count g < 2 ^ SIZE_BITS ->
    randomize_loop rnd fuel g placed k = OutOfFuel.
Proof.
  induction fuel as [|fuel IH]; intros g placed k Hp Hm;
    pose proof (placing_count_le g placed Hp) as Hb;
    assert (Hlt : placed < mines_count g) by lia.
  - simpl. apply Z.ltb_lt in Hlt. now rewrite Hlt.
  - destruct (randomize_loop_step rnd fuel g placed k rnd_ok (proj1 Hp) Hlt)
      as (cell & Hcell & ->).
    destruct (is_mine cell) eqn:Hmine; [now apply IH|].
    rewrite size_wrap_small by lia.
    destruct (placing_mined g placed _ cell Hp Hcell Hmine) as [Hp1 Hm1].
    apply IH; [assumption | now rewrite Hm1].
Qed.

End Placement.

(** ** Termination of the placement loop on a fair source *)

Lemma count_if_lt_lookup (p : Cell -> bool) (l : list Cell) :
  count_if p l < Z.of_nat (length l) ->
  exists i c, l !! i = Some c /\ p c = false.
Proof.
  induction l as [|x l IH]; [unfold count_if; simpl; lia|].
  rewrite count_if_cons. cbn [length]. intros Hlt.
  destruct (p x) eqn:Hx.
  - destruct IH as (i & c & Hi & Hc); [lia|]. now exists (S i), c.
  - now exists 0%nat, x.
Qed.

Lemma free_cell (g : Grid) (placed : Z) :
  placing g placed -> placed < ROWS * COLS ->
  exists r c cell,
    (0 <= r < ROWS /\ 0 <= c < COLS)
    /\ cells g !! Z.to_nat (r * COLS + c) = Some cell
    /\ is_mine cell = false.
Proof.
  intros (Hl & _ & Hcnt & _) Hlt.
  destruct (count_if_lt_lookup is_mine (cells g)) as (i & cell & Hi & Hm).
  { rewrite Hcnt, Hl. exact Hlt. }
  pose proof (lookup_lt_Some _ _ _ Hi) as Hlen. rewrite Hl in Hlen.
  exists (Z.of_nat i / 10), (Z.of_nat i mod 10), cell.
  unfold ROWS, COLS in *.
  pose proof (Z.div_mod (Z.of_nat i) 10 ltac:(lia)) as Hdm.
  pose proof (Z.mod_pos_bound (Z.of_nat i) 10 ltac:(lia)) as Hmod.
  repeat split; try lia; [| assumption].
  replace (Z.to_nat (Z.of_nat i / 10 * 10 + Z.of_nat i mod 10)) with i by lia.
  assumption.
Qed.

Lemma fair_from_shift (rnd : nat -> Z) (k n : nat) :
  fair_from rnd k -> fair_from rnd (k + 2 * n).
Proof.
  intros Hf i r c Hr Hc.
  destruct (Hf (i + n)%nat r c Hr Hc) as (j & Hj & Hp).
  exists (j - n)%nat. split; [lia|]. rewrite <- Hp. unfold pick.
  replace (k + 2 * n + 2 * (j - n))%nat with (k + 2 * j)%nat by lia.
  reflexivity.
Qed.

Section Termination.

Variable rnd : nat -> Z.
Hypothesis rnd_ok : rand_ok rnd.

(** If iteration [j] from now draws a cell without a mine, a mine is placed
    within [j + 1] iterations. *)
Lemma randomize_loop_progress (j : nat) :
  forall (k : nat) (g : Grid) (placed : Z),
    placing g placed ->
    placed < mines_count g < 2 ^ SIZE_BITS ->
    (exists cell, cells g !! drawn rnd (k + 2 * j) = Some cell
                  /\ is_mine cell = false) ->
    exists (n : nat) (g1 : Grid),
      placing g1 (placed + 1)
      /\ mines_count g1 = mines_count g
      /\ forall fuel,
          randomize_loop rnd (S n + fuel) g placed k
          = randomize_loop rnd fuel g1 (placed + 1) (k + 2 * S n).
Proof.
  induction j as [|j IH]; intros k g placed Hp Hm (cell & Hcell & Hmine);
    pose proof (placing_count_le g placed Hp) as Hb;
    destruct (randomize_loop_step rnd 0 g placed k rnd_ok (proj1 Hp) (proj1 Hm))
      as (cell0 & Hcell0 & _);
    destruct (is_mine cell0) eqn:Hmine0.
  - replace (k + 2 * 0)%nat with k in Hcell by lia. congruence.
  - exists 0%nat, (mined_at g (drawn rnd k) cell0).
    destruct (placing_mined g placed _ cell0 Hp Hcell0 Hmine0) as [Hp1 Hm1].
    repeat split; try apply Hp1; auto. intros fuel.
    destruct (randomize_loop_step rnd fuel g placed k rnd_ok (proj1 Hp) (proj1 Hm))
      as (cell1 & Hcell1 & Heq).
    assert (cell1 = cell0) by congruence. subst cell1.
    rewrite Hmine0, size_wrap_small in Heq by lia.
    replace (k + 2 * 1)%nat with (S (S k)) by lia. exact Heq.
  - destruct (IH (S (S k)) g placed Hp Hm) as (n & g1 & Hp1 & Hm1 & Hrun).
    { exists cell. split; [|assumption].
      replace (S (S k) + 2 * j)%nat with (k + 2 * S j)%nat by lia. assumption. }
    exists (S n), g1. repeat split; try apply Hp1; auto. intros fuel.
    destruct (randomize_loop_step rnd (S n + fuel) g placed k rnd_ok (proj1 Hp)
                                  (proj1 Hm)) as (cell1 & Hcell1 & Heq).
    assert (cell1 = cell0) by congruence. subst cell1.
    rewrite Hmine0 in Heq. cbn [Nat.add] in *. rewrite Heq, Hrun.
    f_equal. lia.
  - exists 0%nat, (mined_at g (drawn rnd k) cell0).
    destruct (placing_mined g placed _ cell0 Hp Hcell0 Hmine0) as [Hp1 Hm1].
    repeat split; try apply Hp1; auto. intros fuel.
    destruct (randomize_loop_step rnd fuel g placed k rnd_ok (proj1 Hp) (proj1 Hm))
      as (cell1 & Hcell1 & Heq).
    assert (cell1 = cell0) by congruence. subst cell1.
    rewrite Hmine0, size_wrap_small in Heq by lia.
    replace (k + 2 * 1)%nat with (S (S k)) by lia. exact Heq.
Qed.

Lemma randomize_loop_terminates (d : nat) :
  forall (g : Grid) (placed : Z) (k : nat),
    placing g placed ->
    fair_from rnd k ->
    mines_count g <= ROWS * COLS ->
    mines_count g - placed <= Z.of_nat d ->
    exists fuel g' k', randomize_loop rnd fuel g placed k = Ok (g', k').
Proof.
  induction d as [|d IH]; intros g placed k Hp Hfair Hm Hd;
    destruct (Z.ltb_spec placed (mines_count g)) as [Hlt|Hge].
  - lia.
  - exists 0%nat, g, k. simpl. apply Z.ltb_ge in Hge. now rewrite Hge.
  - destruct (free_cell g placed Hp) as (r & c & cell & [Hr Hc] & Hcell & Hmine);
      [lia|].
    destruct (Hfair 0%nat r c Hr Hc) as (j & _ & Hj).
    destruct (randomize_loop_progress j k g placed Hp) as (n & g1 & Hp1 & Hm1 & Hrun).
    { unfold ROWS, COLS, SIZE_BITS in *. lia. }
    { exists cell. split; [|assumption]. unfold drawn. unfold pick in Hj.
      apply pair_equal_spec in Hj as [-> ->]. assumption. }
    destruct (IH g1 (placed + 1) (k + 2 * S n)%nat Hp1) as (fuel & g' & k' & Hok).
    { now apply fair_from_shift. }
    { now rewrite Hm1. }
    { rewrite Hm1. lia. }
    exists (S n + fuel)%nat, g', k'. now rewrite Hrun.
  - exists 0%nat, g, k. simpl. apply Z.ltb_ge in Hge. now rewrite Hge.
Qed.

End Termination.

(** ** The sample source *)

Lemma cyc_even (j : nat) : cyc (2 * j) = Z.of_nat j / 10.
Proof.
  unfold cyc. rewrite Nat.even_mul. cbn [Nat.even orb].
  now rewrite Nat.mul_comm, Nat.div_mul by lia.
Qed.

Lemma cyc_odd (j : nat) : cyc (S (2 * j)) = Z.of_nat j mod 10.
Proof.
  unfold cyc. rewrite Nat.even_succ, Nat.odd_mul. cbn [Nat.odd Nat.even negb andb].
  replace (S (2 * j)) with (1 + j * 2)%nat by lia.
  now rewrite Nat.div_add by lia.
Qed.

Lemma cyc_rand_ok : rand_ok cyc.
Proof.
  intros k. unfold cyc. destruct (Nat.even k).
  - apply Z.div_pos; lia.
  - apply Z.mod_pos_bound. lia.
Qed.

Lemma cyc_fair : fair_from cyc 0.
Proof.
  intros i r c Hr Hc. unfold ROWS, COLS in *.
  exists (i * 100 + Z.to_nat (r * 10 + c))%nat. split; [lia|].
  unfold pick, randi. cbn [Nat.add]. rewrite cyc_even, cyc_odd.
  change (ROWS - 1 + 1) with 10. change (COLS - 1 + 1) with 10.
  set (J := Z.of_nat (i * 100 + Z.to_nat (r * 10 + c))).
  assert (HJ : J = 10 * (10 * Z.of_nat i + r) + c) by (subst J; lia).
  assert (Hdiv : J / 10 = 10 * Z.of_nat i + r)
    by (symmetry; apply (Z.div_unique J 10 _ c); lia).
  assert (Hmod : J mod 10 = c)
    by (symmetry; apply (Z.mod_unique J 10 (10 * Z.of_nat i + r) c); lia).
  rewrite Hdiv, Hmod, !Z.rem_mod_nonneg by lia.
  f_equal; [|now apply Z.mod_small].
  symmetry. apply (Z.mod_unique _ 10 (Z.of_nat i) r); lia.
Qed.

(** ** init_grid *)

Lemma mine_or_empty (l : list Cell) :
  forallb concealed l = true ->
  count_if is_mine l + count_if is_empty l = Z.of_nat (length l).
Proof.
  induction l as [|c l IH]; [reflexivity|].
  cbn [forallb length]. intros [Hc Hl]%andb_prop.
  rewrite !count_if_cons. specialize (IH Hl).
  unfold concealed, is_mine, is_empty in *.
  destruct (type c); simpl in Hc; rewrite ?andb_false_r in Hc; try discriminate; lia.
Qed.

Lemma mine_positions_sweep (l : list Cell) :
  forall pre : list Cell,
    length (List.filter (fun i => match (pre ++ l) !! i with
                                  | Some c => is_mine c
                                  | None => false
                                  end)
                        (seq (length pre) (length l)))
    = length (List.filter is_mine l).
Proof.
  induction l as [|x l IH]; intros pre; [reflexivity|].
  cbn [length seq List.filter].
  rewrite (list_lookup_middle pre l x (length pre) eq_refl).
  specialize (IH (pre ++ [x])). rewrite <- app_assoc, length_app in IH.
  cbn [app length] in IH. rewrite Nat.add_1_r in IH.
  destruct (is_mine x); cbn [length]; now rewrite IH.
Qed.

Lemma mine_positions_count (g : Grid) :
  NoDup (mine_positions g)
  /\ Z.of_nat (length (mine_positions g)) = count_if is_mine (cells g).
Proof.
  split.
  - apply NoDup_ListNoDup, List.NoDup_filter, List.seq_NoDup.
  - unfold mine_positions, count_if. f_equal.
    apply (mine_positions_sweep (cells g) []).
Qed.

Lemma placing_frame (g : Grid) (placed : Z) :
  placing g placed ->
  grid_ok g /\ mine_shown g = false
  /\ count_if is_empty (cells g) = ROWS * COLS - placed.
Proof.
  intros (Hl & Hcon & Hcnt & Hr & Hc & Ho).
  assert (Hshut : forall l, forallb concealed l = true ->
                            count_if open l = 0
                            /\ existsb (fun c => is_mine c && open c) l = false).
  { induction l as [|x l IH]; [now split|]. cbn [forallb existsb].
    intros [Hx Hl']%andb_prop. destruct (IH Hl') as [IH1 IH2].
    rewrite count_if_cons, IH1, IH2. unfold concealed in Hx.
    destruct (open x); [discriminate|]. now rewrite andb_false_r. }
  destruct (Hshut _ Hcon) as [Hopen Hshown].
  pose proof (mine_or_empty _ Hcon) as Hsum. rewrite Hl in Hsum.
  repeat split; try assumption.
  - rewrite Hr. unfold ROWS. lia.
  - rewrite Hr. unfold ROWS. lia.
  - rewrite Hc. unfold COLS. lia.
  - rewrite Hc. unfold COLS. lia.
  - now rewrite Ho, Hopen.
  - change (Z.of_nat (Z.to_nat (ROWS * COLS))) with (ROWS * COLS) in Hsum. lia.
Qed.

Lemma init_grid_unfold (rnd : nat -> Z) (fuel : nat) (g : Grid) (m : Z) (k : nat) :
  init_grid rnd fuel g m k
  = randomize_loop rnd fuel (with_mines_count (clear_grid g) m) 0 k.
Proof. reflexivity. Qed.

Lemma init_grid_prior (rnd : nat -> Z) (fuel : nat) (g1 g2 : Grid) (m : Z) (k : nat) :
  cells_ok g1 -> cells_ok g2 ->
  init_grid rnd fuel g1 m k = init_grid rnd fuel g2 m k.
Proof.
  intros H1 H2. rewrite !init_grid_unfold, (clear_grid_ok g1 H1), (clear_grid_ok g2 H2).
  reflexivity.
Qed.

Lemma init_grid_sound (rnd : nat -> Z) (fuel : nat) (g : Grid) (m : Z) (k : nat)
      (g' : Grid) (k' : nat) :
  rand_ok rnd -> cells_ok g -> 0 <= m < 2 ^ SIZE_BITS ->
  init_grid rnd fuel g m k = Ok (g', k') ->
  placing g' m /\ mines_count g' = m.
Proof.
  intros Hr Hl Hm Hrun. rewrite init_grid_unfold in Hrun.
  apply (randomize_loop_sound rnd Hr fuel _ 0 k g' k') in Hrun;
    [exact Hrun | now apply placing_cleared | simpl; lia].
Qed.

Lemma init_grid_terminates (rnd : nat -> Z) (g : Grid) (m : Z) (k : nat) :
  rand_ok rnd -> fair_from rnd k -> cells_ok g -> m <= ROWS * COLS ->
  exists fuel g' k', init_grid rnd fuel g m k = Ok (g', k').
Proof.
  intros Hr Hf Hl Hm.
  apply (randomize_loop_terminates rnd Hr (Z.to_nat m));
    [now apply placing_cleared | assumption | exact Hm | simpl; lia].
Qed.

(** C1. For a mine count in [0, ROWS*COLS), [init_grid] on a fair random
    source returns, and the grid it returns has exactly that many mines,
    on distinct positions, all other cells being empty. *)
Theorem init_grid_mine_count (rnd : nat -> Z) (g : Grid) (m : Z) (k : nat) :
  rand_ok rnd -> fair_from rnd k -> cells_ok g ->
  0 <= m < ROWS * COLS ->
  (exists fuel g' k', init_grid rnd fuel g m k = Ok (g', k'))
  /\ (forall fuel g' k',
         init_grid rnd fuel g m k = Ok (g', k') ->
         cells_ok g'
         /\ count_if is_mine (cells g') = m
         /\ count_if is_empty (cells g') = ROWS * COLS - m
         /\ NoDup (mine_positions g')
         /\ Z.of_nat (length (mine_positions g')) = m).
Proof.
  intros Hr Hf Hl Hm. split.
  - apply init_grid_terminates; auto. lia.
  - intros fuel g' k' Hrun.
    destruct (init_grid_sound rnd fuel g m k g' k' Hr Hl) as [Hp _];
      [unfold ROWS, COLS, SIZE_BITS in *; lia | assumption |].
    destruct (placing_frame g' m Hp) as (_ & _ & Hempty).
    destruct (mine_positions_count g') as [Hnd Hlen].
    destruct Hp as (Hl' & _ & Hcnt & _).
    repeat split; auto. now rewrite Hlen.
Qed.

Lemma init_grid_mine_count_witness :
  (exists fuel g' k', init_grid cyc fuel scrap_grid 25 0 = Ok (g', k'))
  /\ (forall fuel g' k',
         init_grid cyc fuel scrap_grid 25 0 = Ok (g', k') ->
         cells_ok g'
         /\ count_if is_mine (cells g') = 25
         /\ count_if is_empty (cells g') = ROWS * COLS - 25
         /\ NoDup (mine_positions g')
         /\ Z.of_nat (length (mine_positions g')) = 25).
Proof.
  apply (init_grid_mine_count cyc scrap_grid 25 0).
  - exact cyc_rand_ok.
  - exact cyc_fair.
  - reflexivity.
  - unfold ROWS, COLS. lia.
Defined.

Lemma all_mines (l : list Cell) :
  forallb concealed l = true ->
  count_if is_mine l = Z.of_nat (length l) ->
  l = replicate (length l) (mkCell MINE false false).
Proof.
  induction l as [|c l IH]; [reflexivity|].
  cbn [forallb length]. intros [Hc Hl]%andb_prop. rewrite count_if_cons.
  pose proof (count_if_bounds is_mine l) as Hb. intros Hcnt.
  destruct (is_mine c) eqn:Hm; [|lia].
  cbn [replicate]. rewrite <- IH by (auto; lia). f_equal.
  destruct c as [t o f]. unfold concealed, is_mine in *. simpl in *.
  destruct t; try discriminate. destruct o, f; try discriminate. reflexivity.
Qed.

(** C3, as the code has it. [init_grid] does not check the mine count.
    Called with a count of [ROWS*COLS] or more it never ends in a failure:
    with more than [ROWS*COLS] the placement loop has no last iteration;
    with exactly [ROWS*COLS] and a fair random source it returns, having
    replaced the grid by one whose cells are all mines. *)
Theorem init_grid_unchecked (rnd : nat -> Z) (g : Grid) (m : Z) (k : nat) :
  rand_ok rnd -> cells_ok g ->
  ROWS * COLS <= m < 2 ^ SIZE_BITS ->
  (forall fuel, init_grid rnd fuel g m k <> AssertFailed
                /\ init_grid rnd fuel g m k <> Undefined)
  /\ (ROWS * COLS < m -> forall fuel, init_grid rnd fuel g m k = OutOfFuel)
  /\ (m = ROWS * COLS -> fair_from rnd k ->
      exists fuel k', init_grid rnd fuel g m k = Ok (full_mine_grid, k')).
Proof.
  intros Hr Hl Hm. repeat split.
  - apply (randomize_loop_no_failure rnd Hr); [now apply placing_cleared|].
    simpl. lia.
  - apply (randomize_loop_no_failure rnd Hr); [now apply placing_cleared|].
    simpl. lia.
  - intros Hbig fuel. rewrite init_grid_unfold.
    apply (randomize_loop_diverges rnd Hr); [now apply placing_cleared|].
    simpl. lia.
  - intros -> Hf.
    destruct (init_grid_terminates rnd g (ROWS * COLS) k Hr Hf Hl) as
      (fuel & g' & k' & Hrun); [lia|].
    exists fuel, k'. rewrite Hrun. do 2 f_equal.
    destruct (init_grid_sound rnd fuel g (ROWS * COLS) k g' k' Hr Hl) as [Hp Hmc];
      [unfold ROWS, COLS, SIZE_BITS; lia | assumption |].
    destruct Hp as (Hl' & Hcon & Hcnt & Hrow & Hcol & Hopen).
    destruct g' as [cs r c mc oc]. unfold cells_ok in Hl'. cbn in *. subst.
    unfold full_mine_grid. f_equal.
    rewrite (all_mines cs Hcon) by (rewrite Hcnt, Hl'; reflexivity).
    now rewrite Hl'.
Qed.

Lemma init_grid_unchecked_witness :
  (forall fuel, init_grid cyc fuel scrap_grid 100 0 <> AssertFailed
                /\ init_grid cyc fuel scrap_grid 100 0 <> Undefined)
  /\ (ROWS * COLS < 100 -> forall fuel, init_grid cyc fuel scrap_grid 100 0 = OutOfFuel)
  /\ (100 = ROWS * COLS -> fair_from cyc 0 ->
      exists fuel k', init_grid cyc fuel scrap_grid 100 0 = Ok (full_mine_grid, k')).
Proof.
  apply (init_grid_unchecked cyc scrap_grid 100 0).
  - exact cyc_rand_ok.
  - reflexivity.
  - unfold ROWS, COLS, SIZE_BITS. lia.
Defined.

(** C3 fails as stated: 100 is outside [0, ROWS*COLS), and [init_grid]
    returns normally, having overwritten the grid it was given. *)
Lemma init_grid_accepts_full_board :
  ~ (0 <= 100 < ROWS * COLS)
  /\ init_grid cyc 100 scrap_grid 100 0 = Ok (full_mine_grid, 200%nat)
  /\ full_mine_grid <> scrap_grid.
Proof.
  split; [unfold ROWS, COLS; lia|].
  split; [vm_compute; reflexivity | discriminate].
Qed.

(** C9. Reset is [init_grid] again: on any grid it gives what [init_grid]
    gives on fresh memory for the same draws, whatever was revealed or
    flagged before; on a fair random source and for a mine count in
    [0, ROWS*COLS) it returns, with every cell concealed and unflagged,
    [open_cells_count] 0 and the cursor at (0,0). *)
Theorem reset_is_initialize (rnd : nat -> Z) (prior fresh : Grid) (m : Z) (k : nat) :
  rand_ok rnd -> fair_from rnd k ->
  cells_ok prior -> cells_ok fresh ->
  0 <= m < ROWS * COLS ->
  (forall fuel, init_grid rnd fuel prior m k = init_grid rnd fuel fresh m k)
  /\ (forall fuel q,
         loop_step rnd fuel (chr "r") (mkGame prior q k)
         = (gk <~ init_grid rnd fuel fresh max_mines k;
            Ok (mkGame (fst gk) q (snd gk))))
  /\ (exists fuel g' k',
         init_grid rnd fuel prior m k = Ok (g', k')
         /\ init_grid rnd fuel fresh m k = Ok (g', k')
         /\ (forall c, In c (cells g') -> open c = false /\ flag c = false)
         /\ open_cells_count g' = 0
         /\ (cur_row g', cur_col g') = (0, 0)
         /\ mines_count g' = m).
Proof.
  intros Hr Hf Hp Hfr Hm.
  split; [intros fuel; now apply init_grid_prior|].
  split.
  { intros fuel q. change (loop_step rnd fuel (chr "r") (mkGame prior q k))
      with (gk <~ init_grid rnd fuel prior max_mines k;
            Ok (mkGame (fst gk) q (snd gk))).
    now rewrite (init_grid_prior rnd fuel prior fresh max_mines k). }
  destruct (init_grid_terminates rnd prior m k Hr Hf Hp) as (fuel & g' & k' & Hrun);
    [lia|].
  exists fuel, g', k'. split; [assumption|].
  split; [now rewrite <- (init_grid_prior rnd fuel prior fresh m k)|].
  destruct (init_grid_sound rnd fuel prior m k g' k' Hr Hp) as [Hpl Hmc];
    [unfold ROWS, COLS, SIZE_BITS in *; lia | assumption |].
  destruct Hpl as (_ & Hcon & _ & Hrow & Hcol & Hopen).
  split.
  { intros c Hin. rewrite forallb_forall in Hcon. specialize (Hcon c Hin).
    unfold concealed in Hcon. destruct (open c), (flag c); auto; discriminate. }
  repeat split; auto. congruence.
Qed.

Lemma reset_is_initialize_witness :
  (forall fuel, init_grid cyc fuel lone_mine_grid 25 0
                = init_grid cyc fuel scrap_grid 25 0)
  /\ (forall fuel q,
         loop_step cyc fuel (chr "r") (mkGame lone_mine_grid q 0)
         = (gk <~ init_grid cyc fuel scrap_grid max_mines 0;
            Ok (mkGame (fst gk) q (snd gk))))
  /\ (exists fuel g' k',
         init_grid cyc fuel lone_mine_grid 25 0 = Ok (g', k')
         /\ init_grid cyc fuel scrap_grid 25 0 = Ok (g', k')
         /\ (forall c, In c (cells g') -> open c = false /\ flag c = false)
         /\ open_cells_count g' = 0
         /\ (cur_row g', cur_col g') = (0, 0)
         /\ mines_count g' = 25).
Proof.
  apply (reset_is_initialize cyc lone_mine_grid scrap_grid 25 0).
  - exact cyc_rand_ok.
  - exact cyc_fair.
  - reflexivity.
  - reflexivity.
  - unfold ROWS, COLS. lia.
Defined.

(** ** The invariant of the game *)

Lemma existsb_insert_same {A : Type} (f : A -> bool) (l : list A) (i : nat) (x y : A) :
  l !! i = Some x -> f y = f x -> existsb f (<[i := y]> l) = existsb f l.
Proof.
  intros Hx Hf. destruct (list_elem_of_split_length _ _ _ Hx) as (l1 & l2 & -> & ->).
  rewrite insert_app_r_alt, Nat.sub_diag by lia. simpl.
  rewrite !existsb_app. simpl. now rewrite Hf.
Qed.

Lemma forallb_insert_same {A : Type} (f : A -> bool) (l : list A) (i : nat) (x y : A) :
  l !! i = Some x -> f y = f x -> forallb f (<[i := y]> l) = forallb f l.
Proof.
  intros Hx Hf. destruct (list_elem_of_split_length _ _ _ Hx) as (l1 & l2 & -> & ->).
  rewrite insert_app_r_alt, Nat.sub_diag by lia. simpl.
  rewrite !forallb_app. simpl. now rewrite Hf.
Qed.

Lemma game_ok_placing (g : Grid) (placed : Z) : placing g placed -> game_ok g.
Proof.
  intros Hp. destruct (placing_frame g placed Hp) as (Hok & Hshown & _).
  split; [assumption|]. unfold detonation_inv. rewrite Hshown. discriminate.
Qed.

Lemma game_ok_init (rnd : nat -> Z) (fuel : nat) (g : Grid) (m : Z) (k : nat)
      (g' : Grid) (k' : nat) :
  rand_ok rnd -> cells_ok g -> 0 <= m < 2 ^ SIZE_BITS ->
  init_grid rnd fuel g m k = Ok (g', k') -> game_ok g'.
Proof.
  intros Hr Hl Hm Hrun.
  destruct (init_grid_sound rnd fuel g m k g' k' Hr Hl Hm Hrun) as [Hp _].
  now apply (game_ok_placing g' m).
Qed.

Lemma game_ok_move (d : Direction) (g : Grid) : game_ok g -> game_ok (move_cursor d g).
Proof.
  intros [(Hl & Hcur & Hn) Hinv].
  destruct (move_cursor_frame d g) as (Hcells & _ & Hcnt).
  unfold game_ok, grid_ok, cells_ok, detonation_inv, mine_shown, all_open.
  rewrite Hcells, Hcnt. repeat split; auto; try apply Hinv; auto.
  all: now apply move_cursor_cursor_ok.
Qed.

Lemma game_ok_key_space (g g' : Grid) :
  game_ok g -> key_space g = Ok g' -> game_ok g'.
Proof.
  intros [Hok Hinv] Hrun. pose proof Hok as (Hl & Hcur & Hn).
  destruct (cursor_cell g Hl Hcur) as [c Hc].
  destruct (is_mine c) eqn:Hm.
  - destruct (key_space_mine g c Hok Hc Hm) as (g1 & Hrun1 & Hl1 & Hall & Hcnt & Hsame).
    assert (g' = g1) by congruence. subst g1.
    injection Hsame as Hrow Hcol.
    split; [|intros _; now split].
    repeat split; auto; try (rewrite ?Hrow, ?Hcol; apply Hcur).
    rewrite Hcnt, (count_if_all open _ Hall), Hl1. reflexivity.
  - rewrite (key_space_at g c Hl Hcur Hc), Hm in Hrun. cbv zeta in Hrun.
    injection Hrun as <-. destruct (open c) eqn:Ho; [now split|].
    destruct (opened_at_count g (cursor_index g) c Hl Hn Hc Ho) as (_ & Hn1 & Hl1).
    split; [repeat split; auto; apply Hcur|].
    unfold detonation_inv, mine_shown, opened_at. simpl.
    rewrite (existsb_insert_same _ _ _ c) by
      (auto; unfold is_mine in *; simpl; rewrite Ho; destruct (type c); auto).
    intros Hshown. destruct (Hinv Hshown) as [Hall _].
    pose proof (forallb_lookup open _ _ _ Hall Hc). congruence.
Qed.

Lemma game_ok_key_f (g g' : Grid) :
  game_ok g -> key_f g = Ok g' -> game_ok g'.
Proof.
  intros [(Hl & Hcur & Hn) Hinv] Hrun. unfold key_f in Hrun.
  destruct (cursor_wrap g Hcur) as [Hw Hlt]. rewrite Hw in Hrun.
  apply Z.ltb_lt in Hlt. rewrite Hlt in Hrun.
  destruct (cursor_cell g Hl Hcur) as [c Hc]. fold (cursor_index g) in Hrun.
  rewrite (read_cell_Some g _ c Hc) in Hrun. cbn [bind] in Hrun.
  fold (cursor_index g) in Hrun. injection Hrun as <-.
  unfold game_ok, grid_ok, cells_ok, detonation_inv, mine_shown, all_open. simpl.
  rewrite length_insert, (count_if_insert open _ _ c _ Hc).
  rewrite (existsb_insert_same _ _ _ c) by auto.
  rewrite (forallb_insert_same _ _ _ c) by auto. simpl.
  repeat split; auto; try apply Hcur; try apply Hinv; auto.
  destruct (open c); lia.
Qed.

Lemma game_ok_loop_step (rnd : nat -> Z) (fuel : nat) (ch : Z) (s s' : Game) :
  rand_ok rnd -> game_ok (grid s) ->
  loop_step rnd fuel ch s = Ok s' -> game_ok (grid s').
Proof.
  intros Hr Hok Hrun. unfold loop_step, handle_key in Hrun.
  destruct (ch <? 0); [now injection Hrun as <-|].
  destruct (ch =? chr "d"); [injection Hrun as <-; apply (game_ok_move Right _ Hok)|].
  destruct (ch =? chr "a"); [injection Hrun as <-; apply (game_ok_move Left _ Hok)|].
  destruct (ch =? chr "s"); [injection Hrun as <-; apply (game_ok_move Down _ Hok)|].
  destruct (ch =? chr "w"); [injection Hrun as <-; apply (game_ok_move Up _ Hok)|].
  destruct (ch =? chr " ").
  { destruct (key_space (grid s)) as [g| | |] eqn:Hk; try discriminate.
    injection Hrun as <-. now apply (game_ok_key_space (grid s) g). }
  destruct (ch =? chr "f").
  { destruct (key_f (grid s)) as [g| | |] eqn:Hk; try discriminate.
    injection Hrun as <-. now apply (game_ok_key_f (grid s) g). }
  destruct (ch =? chr "q"); [now injection Hrun as <-|].
  destruct (ch =? chr "r"); [|now injection Hrun as <-].
  destruct (init_grid rnd fuel (grid s) max_mines (rand_calls s))
    as [[g k']| | |] eqn:Hk; try discriminate.
  injection Hrun as <-. simpl.
  apply (game_ok_init rnd fuel (grid s) max_mines (rand_calls s) g k'); auto.
  - apply Hok.
  - unfold max_mines, SIZE_BITS. lia.
Qed.

Lemma reachable_game_ok (rnd : nat -> Z) (s : Game) :
  rand_ok rnd -> reachable rnd s -> game_ok (grid s).
Proof.
  intros Hr. induction 1 as [fuel g0 m k g k' Hl Hm Hrun
                            | fuel ch s s' _ IH Hrun
                            | fuel m s g k' _ IH Hm Hrun].
  - now apply (game_ok_init rnd fuel g0 m k g k').
  - now apply (game_ok_loop_step rnd fuel ch s s').
  - apply (game_ok_init rnd fuel (grid s) m (rand_calls s) g k'); auto. apply IH.
Qed.

(** C10. In every state the program reaches (initialisation, then keys and
    resets), a shown mine means that every cell is open and that
    [open_cells_count] is [ROWS*COLS]; every key and every reset lead to a
    state of which this holds again. *)
Theorem shown_mine_means_all_open (rnd : nat -> Z) (s : Game) :
  rand_ok rnd -> reachable rnd s ->
  detonation_inv (grid s)
  /\ (forall fuel ch s', loop_step rnd fuel ch s = Ok s' -> detonation_inv (grid s'))
  /\ (forall fuel m g k',
         0 <= m < 2 ^ SIZE_BITS ->
         init_grid rnd fuel (grid s) m (rand_calls s) = Ok (g, k') ->
         detonation_inv g).
Proof.
  intros Hr Hs. pose proof (reachable_game_ok rnd s Hr Hs) as Hok.
  split; [apply Hok|]. split.
  - intros fuel ch s' Hrun. now apply (game_ok_loop_step rnd fuel ch s s').
  - intros fuel m g k' Hm Hrun.
    apply (game_ok_init rnd fuel (grid s) m (rand_calls s) g k'); auto. apply Hok.
Qed.

Lemma detonated_game_reachable : reachable cyc detonated_game.
Proof.
  apply (reach_key cyc 0 (chr " ") started_game); [|vm_compute; reflexivity].
  apply (reach_init cyc 25 scrap_grid max_mines 0 started_grid 50);
    [reflexivity | unfold max_mines, SIZE_BITS; lia | vm_compute; reflexivity].
Qed.

Lemma shown_mine_means_all_open_witness :
  mine_shown (grid detonated_game) = true
  /\ detonation_inv (grid detonated_game)
  /\ (forall fuel ch s', loop_step cyc fuel ch detonated_game = Ok s' ->
                         detonation_inv (grid s'))
  /\ (forall fuel m g k',
         0 <= m < 2 ^ SIZE_BITS ->
         init_grid cyc fuel (grid detonated_game) m (rand_calls detonated_game)
         = Ok (g, k') ->
         detonation_inv g).
Proof.
  split; [vm_compute; reflexivity|].
  apply (shown_mine_means_all_open cyc detonated_game).
  - exact cyc_rand_ok.
  - exact detonated_game_reachable.
Defined.

(** C4. In every state the program reaches, revealing while the cell under
    the cursor is open is a no-op with the outcome [AlreadyOpen]: the grid
    afterwards is the grid before, so [open_cells_count] and the [open] and
    [flag] of every cell are unchanged. *)
Theorem reveal_open_cell_noop (rnd : nat -> Z) (s : Game) (c : Cell) :
  rand_ok rnd -> reachable rnd s ->
  cells (grid s) !! cursor_index (grid s) = Some c ->
  open c = true ->
  exists g',
    reveal_at_cursor (grid s) = Ok (g', AlreadyOpen)
    /\ g' = grid s
    /\ open_cells_count g' = open_cells_count (grid s)
    /\ (forall j, open <$> cells g' !! j = open <$> cells (grid s) !! j)
    /\ (forall j, flag <$> cells g' !! j = flag <$> cells (grid s) !! j).
Proof.
  intros Hr Hs Hc Ho. exists (grid s).
  split; [|now repeat split].
  apply (reveal_open_keeps_grid (grid s) c); auto.
  now apply (reachable_game_ok rnd).
Qed.

Lemma reveal_open_cell_noop_witness :
  type (mkCell MINE true false) = MINE
  /\ exists g',
       reveal_at_cursor (grid detonated_game) = Ok (g', AlreadyOpen)
       /\ g' = grid detonated_game
       /\ open_cells_count g' = open_cells_count (grid detonated_game)
       /\ (forall j, open <$> cells g' !! j
                     = open <$> cells (grid detonated_game) !! j)
       /\ (forall j, flag <$> cells g' !! j
                     = flag <$> cells (grid detonated_game) !! j).
Proof.
  split; [reflexivity|].
  apply (reveal_open_cell_noop cyc detonated_game (mkCell MINE true false)).
  - exact cyc_rand_ok.
  - exact detonated_game_reachable.
  - vm_compute. reflexivity.
  - reflexivity.
Defined.


(** * Further properties of the engine *)

(** ** cell_at and set_cell *)

Lemma size_wrap_range (x : Z) : 0 <= size_wrap x < 2 ^ SIZE_BITS.
Proof. unfold size_wrap, SIZE_BITS. apply Z.mod_pos_bound. lia. Qed.

(** X1. [cell_at] checks the flattened index only: it fails exactly when
    [row*COLS + col] (as a [size_t]) is 100 or more, and otherwise reads
    the cell with that index, whatever row and column it was asked for. *)
Theorem cell_at_flat_index (g : Grid) (row col : Z) :
  cells_ok g ->
  (cell_at g row col = AssertFailed <-> ROWS * COLS <= size_wrap (row * COLS + col))
  /\ (size_wrap (row * COLS + col) < ROWS * COLS ->
      (exists cell,
          cells g !! Z.to_nat (size_wrap (row * COLS + col)) = Some cell
          /\ cell_at g row col = Ok cell)
      /\ cell_at g row col
         = cell_at g (size_wrap (row * COLS + col) / COLS)
                     (size_wrap (row * COLS + col) mod COLS)).
Proof.
  intros Hl. pose proof (size_wrap_range (row * COLS + col)) as Hrange.
  set (idx := size_wrap (row * COLS + col)) in *.
  assert (Hread : idx < ROWS * COLS ->
                  exists cell, cells g !! Z.to_nat idx = Some cell
                               /\ read_cell g idx = Ok cell).
  { intros Hlt. destruct (lookup_lt_is_Some_2 (cells g) (Z.to_nat idx)) as [cell Hc].
    - rewrite Hl. unfold ROWS, COLS in *. lia.
    - exists cell. split; [assumption | now apply read_cell_Some]. }
  split.
  - unfold cell_at. fold idx. destruct (Z.ltb_spec idx (ROWS * COLS)) as [Hlt|Hge].
    + destruct (Hread Hlt) as (cell & _ & ->). split; [discriminate | lia].
    + split; auto.
  - intros Hlt. destruct (Hread Hlt) as (cell & Hc & Hrd). split.
    + exists cell. split; [assumption|]. unfold cell_at. fold idx.
      apply Z.ltb_lt in Hlt. now rewrite Hlt.
    + unfold cell_at. fold idx.
      assert (Hsame : size_wrap (idx / COLS * COLS + idx mod COLS) = idx).
      { unfold COLS in *. rewrite size_wrap_small.
        - pose proof (Z.div_mod idx 10 ltac:(lia)). lia.
        - pose proof (Z.div_mod idx 10 ltac:(lia)). lia. }
      now rewrite Hsame.
Qed.

Lemma cell_at_flat_index_witness :
  (cell_at hidden_mine_grid 0 15 = AssertFailed
   <-> ROWS * COLS <= size_wrap (0 * COLS + 15))
  /\ (size_wrap (0 * COLS + 15) < ROWS * COLS ->
      (exists cell,
          cells hidden_mine_grid !! Z.to_nat (size_wrap (0 * COLS + 15)) = Some cell
          /\ cell_at hidden_mine_grid 0 15 = Ok cell)
      /\ cell_at hidden_mine_grid 0 15
         = cell_at hidden_mine_grid (size_wrap (0 * COLS + 15) / COLS)
                                    (size_wrap (0 * COLS + 15) mod COLS)).
Proof. apply (cell_at_flat_index hidden_mine_grid 0 15). reflexivity. Defined.

Lemma on_grid_range (r c : Z) :
  on_grid (r, c) = true <-> (0 <= r < ROWS /\ 0 <= c < COLS).
Proof. unfold on_grid, ROWS, COLS. simpl. lia. Qed.

Lemma cell_at_on_grid_plain (g : Grid) (r c : Z) :
  on_grid (r, c) = true ->
  cell_at g r c = read_cell g (r * COLS + c)
  /\ 0 <= r * COLS + c < ROWS * COLS.
Proof.
  intros [Hr Hc]%on_grid_range. unfold cell_at, ROWS, COLS in *.
  rewrite size_wrap_small by (unfold SIZE_BITS; lia).
  destruct (Z.ltb_spec (r * 10 + c) (10 * 10)); [split; [reflexivity|lia] | lia].
Qed.

(** X2. What [set_cell] wrote is what [cell_at] reads: on a position of the
    grid it changes the kind of that cell and nothing else (the cell keeps
    its [open] and [flag], every other position reads as before, cursor and
    counters stay). *)
Theorem set_cell_then_cell_at (g : Grid) (row col : Z) (t : Cell_Type) :
  cells_ok g -> on_grid (row, col) = true ->
  exists cell g',
    cell_at g row col = Ok cell
    /\ set_cell g row col t = Ok g'
    /\ cell_at g' row col = Ok (mkCell t (open cell) (flag cell))
    /\ (forall r c, on_grid (r, c) = true -> (r, c) <> (row, col) ->
                    cell_at g' r c = cell_at g r c)
    /\ cells_ok g'
    /\ (cur_row g', cur_col g', mines_count g', open_cells_count g')
       = (cur_row g, cur_col g, mines_count g, open_cells_count g).
Proof.
  intros Hl Hin.
  destruct (cell_at_on_grid_plain g row col Hin) as [Hat Hidx].
  assert (Hw : size_wrap (row * COLS + col) = row * COLS + col)
    by (apply size_wrap_small; unfold ROWS, COLS, SIZE_BITS in *; lia).
  destruct (lookup_lt_is_Some_2 (cells g) (Z.to_nat (row * COLS + col)))
    as [cell Hcell]; [rewrite Hl; lia|].
  exists cell. eexists. split; [now rewrite Hat; apply read_cell_Some|].
  split.
  { unfold set_cell. rewrite Hw, (read_cell_Some g _ cell Hcell). reflexivity. }
  assert (Hlen : (Z.to_nat (row * COLS + col) < length (cells g))%nat)
    by (rewrite Hl; lia).
  split.
  { destruct (cell_at_on_grid_plain
                (with_cells g (<[Z.to_nat (row * COLS + col) := with_type cell t]>
                                 (cells g))) row col Hin) as [-> _].
    apply read_cell_Some. simpl. now apply list_lookup_insert_eq. }
  split.
  { intros r c Hin' Hne.
    destruct (cell_at_on_grid_plain g r c Hin') as [-> Hidx'].
    destruct (cell_at_on_grid_plain
                (with_cells g (<[Z.to_nat (row * COLS + col) := with_type cell t]>
                                 (cells g))) r c Hin') as [-> _].
    unfold read_cell. simpl. rewrite list_lookup_insert_ne; [reflexivity|].
    apply on_grid_range in Hin, Hin'. unfold ROWS, COLS in *.
    intros Heq. apply Hne. f_equal; lia. }
  split; [|reflexivity].
  unfold cells_ok. simpl. now rewrite length_insert.
Qed.

Lemma set_cell_then_cell_at_witness :
  exists cell g',
    cell_at opened_corner_grid 0 0 = Ok cell
    /\ set_cell opened_corner_grid 0 0 MINE = Ok g'
    /\ cell_at g' 0 0 = Ok (mkCell MINE (open cell) (flag cell))
    /\ (forall r c, on_grid (r, c) = true -> (r, c) <> (0, 0) ->
                    cell_at g' r c = cell_at opened_corner_grid r c)
    /\ cells_ok g'
    /\ (cur_row g', cur_col g', mines_count g', open_cells_count g')
       = (cur_row opened_corner_grid, cur_col opened_corner_grid,
          mines_count opened_corner_grid, open_cells_count opened_corner_grid).
Proof.
  apply (set_cell_then_cell_at opened_corner_grid 0 0 MINE); reflexivity.
Defined.

(** ** clear_grid and the random draws *)

(** X3. [clear_grid] leaves a blank board: every cell empty, concealed and
    unflagged, the cursor at (0,0) and no cell counted open.  It does not
    touch [mines_count], and clearing twice is clearing once. *)
Theorem clear_grid_blank (g : Grid) :
  cells_ok g ->
  cells (clear_grid g) = replicate 100 cleared_cell
  /\ (forall r c, on_grid (r, c) = true -> cell_at (clear_grid g) r c = Ok cleared_cell)
  /\ (cur_row (clear_grid g), cur_col (clear_grid g)) = (0, 0)
  /\ open_cells_count (clear_grid g) = 0
  /\ mines_count (clear_grid g) = mines_count g
  /\ clear_grid (clear_grid g) = clear_grid g.
Proof.
  intros Hl. rewrite (clear_grid_ok g Hl). split; [reflexivity|]. split.
  - intros r c Hin.
    destruct (cell_at_on_grid_plain
                (mkGrid (replicate 100 cleared_cell) 0 0 (mines_count g) 0) r c Hin)
      as [-> Hidx].
    apply read_cell_Some. cbn [cells]. apply lookup_replicate_2.
    unfold ROWS, COLS in *. lia.
  - repeat split.
Qed.

Lemma clear_grid_blank_witness :
  cells (clear_grid scrap_grid) = replicate 100 cleared_cell
  /\ (forall r c, on_grid (r, c) = true ->
                  cell_at (clear_grid scrap_grid) r c = Ok cleared_cell)
  /\ (cur_row (clear_grid scrap_grid), cur_col (clear_grid scrap_grid)) = (0, 0)
  /\ open_cells_count (clear_grid scrap_grid) = 0
  /\ mines_count (clear_grid scrap_grid) = mines_count scrap_grid
  /\ clear_grid (clear_grid scrap_grid) = clear_grid scrap_grid.
Proof. apply (clear_grid_blank scrap_grid). reflexivity. Defined.

(** X4. [randi(max)] lies in [0, max] for every non-negative [max] (below
    [INT_MAX], so that [max + 1] does not overflow). *)
Theorem randi_range (rnd : nat -> Z) (max_inclusive : Z) (k : nat) :
  rand_ok rnd ->
  0 <= max_inclusive < INT_MAX ->
  0 <= randi rnd max_inclusive k <= max_inclusive.
Proof.
  intros Hr Hm. unfold randi.
  pose proof (Z.rem_bound_pos (rnd k) (max_inclusive + 1) (Hr k) ltac:(lia)). lia.
Qed.

Lemma randi_range_witness : 0 <= randi cyc 9 7 <= 9.
Proof.
  apply (randi_range cyc 9 7); [exact cyc_rand_ok | unfold INT_MAX; lia].
Defined.

Lemma randomize_loop_draws (rnd : nat -> Z) (fuel : nat) :
  rand_ok rnd ->
  forall (g : Grid) (placed : Z) (k : nat) (g' : Grid) (k' : nat),
    placing g placed ->
    placed <= mines_count g < 2 ^ SIZE_BITS ->
    randomize_loop rnd fuel g placed k = Ok (g', k') ->
    exists n : nat,
      k' = (k + 2 * n)%nat
      /\ mines_count g - placed <= Z.of_nat n
      /\ (n <= fuel)%nat.
Proof.
  intros Hr. induction fuel as [|fuel IH]; intros g placed k g' k' Hp Hm Hrun.
  - simpl in Hrun. destruct (Z.ltb_spec placed (mines_count g)); [discriminate|].
    injection Hrun as <- <-. exists 0%nat. repeat split; lia.
  - destruct (Z.ltb_spec placed (mines_count g)) as [Hlt|Hge].
    + destruct (randomize_loop_step rnd fuel g placed k Hr (proj1 Hp) Hlt)
        as (cell & Hcell & Heq).
      rewrite Heq in Hrun. pose proof (placing_count_le g placed Hp) as Hb.
      destruct (is_mine cell) eqn:Hmine.
      * destruct (IH g placed (S (S k)) g' k' Hp Hm Hrun) as (n & -> & Hn & Hf).
        exists (S n). repeat split; lia.
      * rewrite size_wrap_small in Hrun by lia.
        destruct (placing_mined g placed _ cell Hp Hcell Hmine) as [Hp1 Hm1].
        destruct (IH _ (placed + 1) (S (S k)) g' k' Hp1) as (n & -> & Hn & Hf);
          [rewrite Hm1; lia | assumption |].
        rewrite Hm1 in Hn. exists (S n). repeat split; lia.
    + cbn [randomize_loop] in Hrun. apply Z.ltb_ge in Hge. rewrite Hge in Hrun.
      injection Hrun as <- <-. apply Z.ltb_ge in Hge.
      exists 0%nat. repeat split; lia.
Qed.

(** X5. [init_grid] draws from [rand()] in pairs, one pair per iteration of the
    placement loop: when it returns it has made an even number [2n] of
    calls, with [n] at least the number of mines asked for. *)
Theorem init_grid_draws (rnd : nat -> Z) (fuel : nat) (g : Grid) (m : Z) (k : nat)
        (g' : Grid) (k' : nat) :
  rand_ok rnd -> cells_ok g -> 0 <= m < 2 ^ SIZE_BITS ->
  init_grid rnd fuel g m k = Ok (g', k') ->
  exists n : nat, k' = (k + 2 * n)%nat /\ m <= Z.of_nat n /\ (n <= fuel)%nat.
Proof.
  intros Hr Hl Hm Hrun. rewrite init_grid_unfold in Hrun.
  destruct (randomize_loop_draws rnd fuel Hr _ 0 k g' k'
              (placing_cleared g m Hl) ltac:(simpl; lia) Hrun) as (n & Hk & Hn & Hf).
  simpl in Hn. exists n. repeat split; auto. lia.
Qed.

Lemma init_grid_draws_witness :
  exists n : nat, 50%nat = (0 + 2 * n)%nat /\ 25 <= Z.of_nat n /\ (n <= 25)%nat.
Proof.
  apply (init_grid_draws cyc 25 scrap_grid 25 0 started_grid 50).
  - exact cyc_rand_ok.
  - reflexivity.
  - unfold SIZE_BITS. lia.
  - vm_compute. reflexivity.
Defined.

(** ** What the keys keep *)

Lemma same_board_refl (g : Grid) : same_board g g.
Proof. repeat split. Qed.

Lemma same_board_trans (g1 g2 g3 : Grid) :
  same_board g1 g2 -> same_board g2 g3 -> same_board g1 g3.
Proof.
  unfold same_board. intros (? & ? & ? & ? & ?) (? & ? & ? & ? & ?).
  repeat split; congruence.
Qed.

Lemma opens_more_refl (g : Grid) : opens_more g g.
Proof. intros i Hi. exact Hi. Qed.

Lemma opens_more_trans (g1 g2 g3 : Grid) :
  opens_more g1 g2 -> opens_more g2 g3 -> opens_more g1 g3.
Proof. intros H12 H23 i Hi. apply H23, H12, Hi. Qed.

Lemma for_each_preserves {A S : Type} (P : S -> S -> Prop)
      (body : S -> A -> result S) (l : list A) :
  (forall s, P s s) ->
  (forall s1 s2 s3, P s1 s2 -> P s2 s3 -> P s1 s3) ->
  (forall s x s', body s x = Ok s' -> P s s') ->
  forall s s', for_each body l s = Ok s' -> P s s'.
Proof.
  intros Hrefl Htrans Hbody. induction l as [|x l IH]; intros s s' Hrun.
  - injection Hrun as <-. apply Hrefl.
  - cbn [for_each] in Hrun. destruct (body s x) as [s1| | |] eqn:Hx; try discriminate.
    apply (Htrans s s1 s'); [now apply (Hbody s x) | now apply IH].
Qed.

Lemma open_cell_keeps (g : Grid) (i : Z) (g' : Grid) :
  open_cell g i = Ok g' -> same_board g g' /\ opens_more g g'.
Proof.
  unfold open_cell, read_cell.
  destruct (cells g !! Z.to_nat i) as [c|] eqn:Hc; [|discriminate]. cbn [bind].
  destruct (open c) eqn:Ho; intros Hrun; injection Hrun as <-.
  - split; [apply same_board_refl | apply opens_more_refl].
  - pose proof (lookup_lt_Some _ _ _ Hc) as Hlt. split.
    + unfold same_board; simpl. rewrite !list_fmap_insert. simpl.
      repeat split; apply list_insert_id; now rewrite list_lookup_fmap, Hc.
    + intros j Hj. simpl. rewrite list_fmap_insert. simpl.
      destruct (decide (j = Z.to_nat i)) as [->|Hne].
      * apply list_lookup_insert_eq. now rewrite length_fmap.
      * now rewrite list_lookup_insert_ne by auto.
Qed.

Lemma reveal_all_keeps (g g' : Grid) :
  reveal_all g = Ok g' -> same_board g g' /\ opens_more g g'.
Proof.
  unfold reveal_all.
  apply (for_each_preserves (fun g g' => same_board g g' /\ opens_more g g')).
  - intros s. split; [apply same_board_refl | apply opens_more_refl].
  - intros s1 s2 s3 [? ?] [? ?].
    split; [now apply (same_board_trans s1 s2) | now apply (opens_more_trans s1 s2)].
  - intros s r s'.
    apply (for_each_preserves (fun g g' => same_board g g' /\ opens_more g g')).
    + intros s0. split; [apply same_board_refl | apply opens_more_refl].
    + intros s1 s2 s3 [? ?] [? ?].
      split; [now apply (same_board_trans s1 s2) | now apply (opens_more_trans s1 s2)].
    + intros s0 c s0'. apply open_cell_keeps.
Qed.

Lemma key_space_keeps (g g' : Grid) :
  key_space g = Ok g' -> same_board g g' /\ opens_more g g'.
Proof.
  unfold key_space.
  destruct (size_wrap (cur_row g * COLS + cur_col g) <? COLS * ROWS); [|discriminate].
  destruct (open_cell g _) as [g1| | |] eqn:H1; try discriminate. cbn [bind].
  destruct (open_cell_keeps _ _ _ H1) as [Hs1 Ho1].
  destruct (read_cell g1 _) as [c| | |]; try discriminate. cbn [bind].
  destruct (type c).
  - intros Hrun. injection Hrun as <-. now split.
  - intros Hrun. destruct (reveal_all_keeps _ _ Hrun) as [Hs2 Ho2].
    split; [now apply (same_board_trans g g1) | now apply (opens_more_trans g g1)].
  - intros Hrun. injection Hrun as <-. now split.
Qed.

Lemma key_f_keeps (g g' : Grid) :
  key_f g = Ok g' ->
  type <$> cells g' = type <$> cells g
  /\ open <$> cells g' = open <$> cells g
  /\ (cur_row g', cur_col g', mines_count g', open_cells_count g')
     = (cur_row g, cur_col g, mines_count g, open_cells_count g).
Proof.
  unfold key_f, read_cell.
  destruct (size_wrap (cur_row g * COLS + cur_col g) <? COLS * ROWS); [|discriminate].
  destruct (cells g !! _) as [c|] eqn:Hc; [|discriminate]. cbn [bind].
  intros Hrun. injection Hrun as <-. simpl. rewrite !list_fmap_insert. simpl.
  repeat split; apply list_insert_id; now rewrite list_lookup_fmap, Hc.
Qed.

Lemma loop_step_steady (rnd : nat -> Z) (fuel : nat) (ch : Z) (s s' : Game) :
  ch <> chr "r" ->
  loop_step rnd fuel ch s = Ok s' ->
  type <$> cells (grid s') = type <$> cells (grid s)
  /\ mines_count (grid s') = mines_count (grid s)
  /\ rand_calls s' = rand_calls s.
Proof.
  intros Hne Hrun. unfold loop_step, handle_key in Hrun.
  destruct (ch <? 0); [now injection Hrun as <-|].
  destruct (ch =? chr "d");
    [injection Hrun as <-;
     destruct (move_cursor_frame Right (grid s)) as (H1 & H2 & _);
     simpl in *; now rewrite H1, H2|].
  destruct (ch =? chr "a");
    [injection Hrun as <-;
     destruct (move_cursor_frame Left (grid s)) as (H1 & H2 & _);
     simpl in *; now rewrite H1, H2|].
  destruct (ch =? chr "s");
    [injection Hrun as <-;
     destruct (move_cursor_frame Down (grid s)) as (H1 & H2 & _);
     simpl in *; now rewrite H1, H2|].
  destruct (ch =? chr "w");
    [injection Hrun as <-;
     destruct (move_cursor_frame Up (grid s)) as (H1 & H2 & _);
     simpl in *; now rewrite H1, H2|].
  destruct (ch =? chr " ").
  { destruct (key_space (grid s)) as [g| | |] eqn:Hk; try discriminate.
    injection Hrun as <-. simpl.
    destruct (key_space_keeps _ _ Hk) as [(? & _ & _ & _ & ?) _]. now repeat split. }
  destruct (ch =? chr "f").
  { destruct (key_f (grid s)) as [g| | |] eqn:Hk; try discriminate.
    injection Hrun as <-. simpl.
    destruct (key_f_keeps _ _ Hk) as (? & _ & Heq). injection Heq as _ _ ? _.
    now repeat split. }
  destruct (ch =? chr "q"); [now injection Hrun as <-|].
  destruct (Z.eqb_spec ch (chr "r")); [contradiction | now injection Hrun as <-].
Qed.

(** X6. No key but [r] moves a mine or draws a random number: the kinds of the
    cells, [mines_count] and the position in the [rand()] stream are what
    they were before the key. *)
Theorem keys_keep_the_mines (rnd : nat -> Z) (fuel : nat) (ch : Z) (s s' : Game) :
  ch <> chr "r" ->
  loop_step rnd fuel ch s = Ok s' ->
  type <$> cells (grid s') = type <$> cells (grid s)
  /\ mines_count (grid s') = mines_count (grid s)
  /\ rand_calls s' = rand_calls s.
Proof.
  intros Hne Hrun.
  destruct (loop_step_steady rnd fuel ch s s' Hne Hrun) as (Hkinds & Hcount & Hcalls).
  split; [exact Hkinds|]. split; [exact Hcount | exact Hcalls].
Qed.

Lemma keys_keep_the_mines_witness :
  type <$> cells (grid detonated_game) = type <$> cells (grid started_game)
  /\ mines_count (grid detonated_game) = mines_count (grid started_game)
  /\ rand_calls detonated_game = rand_calls started_game.
Proof.
  apply (keys_keep_the_mines cyc 0 (chr " ") started_game detonated_game).
  - vm_compute. discriminate.
  - vm_compute. reflexivity.
Defined.

(** X7. Revealing, detonation included, touches nothing but [open] and
    [open_cells_count]: kinds, flags, cursor and [mines_count] stay, and
    no open cell is closed. *)
Theorem reveal_touches_only_open (g g' : Grid) :
  key_space g = Ok g' ->
  same_board g g' /\ opens_more g g'.
Proof.
  intros Hrun. destruct (key_space_keeps g g' Hrun) as [Hsame Hopens].
  split; [exact Hsame | exact Hopens].
Qed.

Lemma reveal_touches_only_open_witness :
  same_board started_grid (grid detonated_game)
  /\ opens_more started_grid (grid detonated_game).
Proof.
  apply (reveal_touches_only_open started_grid (grid detonated_game)).
  vm_compute. reflexivity.
Defined.

Lemma count_is_mine_types (l1 l2 : list Cell) :
  type <$> l1 = type <$> l2 -> count_if is_mine l1 = count_if is_mine l2.
Proof.
  revert l2. induction l1 as [|c1 l1 IH]; intros [|c2 l2] Heq; try discriminate;
    [reflexivity|].
  rewrite !fmap_cons in Heq. injection Heq as Hc Hl.
  rewrite !count_if_cons, (IH l2 Hl). unfold is_mine. now rewrite Hc.
Qed.

Lemma count_open_list (l1 l2 : list Cell) :
  open <$> l1 = open <$> l2 -> count_if open l1 = count_if open l2.
Proof.
  revert l2. induction l1 as [|c1 l1 IH]; intros [|c2 l2] Heq; try discriminate;
    [reflexivity|].
  rewrite !fmap_cons in Heq. injection Heq as Hc Hl.
  now rewrite !count_if_cons, (IH l2 Hl), Hc.
Qed.

Lemma loop_step_reset (rnd : nat -> Z) (fuel : nat) (s s' : Game) :
  loop_step rnd fuel (chr "r") s = Ok s' ->
  exists k', init_grid rnd fuel (grid s) max_mines (rand_calls s) = Ok (grid s', k').
Proof.
  change (loop_step rnd fuel (chr "r") s)
    with (gk <~ init_grid rnd fuel (grid s) max_mines (rand_calls s);
          Ok (mkGame (fst gk) (quit s) (snd gk))).
  destruct (init_grid rnd fuel (grid s) max_mines (rand_calls s))
    as [[g k']| | |]; try discriminate.
  intros Hrun. injection Hrun as <-. now exists k'.
Qed.

Lemma counts_ok_init (rnd : nat -> Z) (fuel : nat) (g : Grid) (m : Z) (k : nat)
      (g' : Grid) (k' : nat) :
  rand_ok rnd -> cells_ok g -> 0 <= m < 2 ^ SIZE_BITS ->
  init_grid rnd fuel g m k = Ok (g', k') -> counts_ok g'.
Proof.
  intros Hr Hl Hm Hrun.
  destruct (init_grid_sound rnd fuel g m k g' k' Hr Hl Hm Hrun) as [Hp Hmc].
  pose proof (placing_count_le g' m Hp) as Hb.
  destruct Hp as (_ & _ & Hcnt & _). unfold counts_ok. rewrite Hmc, Hcnt. lia.
Qed.

Lemma reachable_counts_ok (rnd : nat -> Z) (s : Game) :
  rand_ok rnd -> reachable rnd s -> counts_ok (grid s).
Proof.
  intros Hr. induction 1 as [fuel g0 m k g k' Hl Hm Hrun
                            | fuel ch s s' Hs IH Hrun
                            | fuel m s g k' Hs IH Hm Hrun].
  - now apply (counts_ok_init rnd fuel g0 m k g k').
  - pose proof (reachable_game_ok rnd s Hr Hs) as [(Hl & _) _].
    destruct (Z.eq_dec ch (chr "r")) as [->|Hne].
    + destruct (loop_step_reset rnd fuel s s' Hrun) as [k' Hinit].
      apply (counts_ok_init rnd fuel (grid s) max_mines (rand_calls s) _ k');
        auto. unfold max_mines, SIZE_BITS. lia.
    + destruct (loop_step_steady rnd fuel ch s s' Hne Hrun) as (Ht & Hm & _).
      unfold counts_ok in *. now rewrite (count_is_mine_types _ _ Ht), Hm.
  - pose proof (reachable_game_ok rnd s Hr Hs) as [(Hl & _) _].
    now apply (counts_ok_init rnd fuel (grid s) m (rand_calls s) g k').
Qed.

(** X8. In every state the program reaches, [mines_count] is the number of
    mines on the board and [open_cells_count] the number of open cells,
    neither above [ROWS*COLS]: the two counters shown in the header are
    true. *)
Theorem reachable_counters_true (rnd : nat -> Z) (s : Game) :
  rand_ok rnd -> reachable rnd s ->
  count_if is_mine (cells (grid s)) = mines_count (grid s)
  /\ count_if open (cells (grid s)) = open_cells_count (grid s)
  /\ 0 <= mines_count (grid s) <= ROWS * COLS
  /\ 0 <= open_cells_count (grid s) <= ROWS * COLS.
Proof.
  intros Hr Hs.
  destruct (reachable_counts_ok rnd s Hr Hs) as [Hm Hle].
  destruct (reachable_game_ok rnd s Hr Hs) as [(Hl & _ & Ho) _].
  pose proof (count_if_bounds is_mine (cells (grid s))) as Hb1.
  pose proof (count_if_bounds open (cells (grid s))) as Hb2.
  rewrite Hl in Hb2. change (Z.of_nat (Z.to_nat (ROWS * COLS))) with (ROWS * COLS) in Hb2.
  repeat split; try lia.
Qed.

Lemma reachable_counters_true_witness :
  count_if is_mine (cells (grid detonated_game)) = mines_count (grid detonated_game)
  /\ count_if open (cells (grid detonated_game))
     = open_cells_count (grid detonated_game)
  /\ 0 <= mines_count (grid detonated_game) <= ROWS * COLS
  /\ 0 <= open_cells_count (grid detonated_game) <= ROWS * COLS.
Proof.
  apply (reachable_counters_true cyc detonated_game).
  - exact cyc_rand_ok.
  - exact detonated_game_reachable.
Defined.

(** ** Cells stay open *)

Lemma grid_ok_key_space (g g' : Grid) :
  grid_ok g -> key_space g = Ok g' ->
  grid_ok g' /\ open_cells_count g <= open_cells_count g'.
Proof.
  intros Hok Hrun. pose proof Hok as (Hl & Hcur & Hn).
  destruct (cursor_cell g Hl Hcur) as [c Hc].
  pose proof (count_if_bounds open (cells g)) as Hb. rewrite Hl in Hb.
  change (Z.of_nat (Z.to_nat (ROWS * COLS))) with (ROWS * COLS) in Hb.
  destruct (is_mine c) eqn:Hm.
  - destruct (key_space_mine g c Hok Hc Hm) as (g1 & Hrun1 & Hl1 & Hall & Hcnt & Hsame).
    assert (g' = g1) by congruence. subst g1. injection Hsame as Hrow Hcol.
    split; [|lia].
    repeat split; auto; try (rewrite ?Hrow, ?Hcol; apply Hcur).
    rewrite Hcnt, (count_if_all open _ Hall), Hl1. reflexivity.
  - rewrite (key_space_at g c Hl Hcur Hc), Hm in Hrun. cbv zeta in Hrun.
    injection Hrun as <-. destruct (open c) eqn:Ho; [split; [assumption|lia]|].
    destruct (opened_at_count g (cursor_index g) c Hl Hn Hc Ho) as (Hinc & Hn1 & Hl1).
    split; [repeat split; auto; apply Hcur | lia].
Qed.

Lemma grid_ok_key_f (g g' : Grid) :
  grid_ok g -> key_f g = Ok g' ->
  grid_ok g' /\ open_cells_count g' = open_cells_count g
  /\ open <$> cells g' = open <$> cells g.
Proof.
  intros (Hl & Hcur & Hn) Hrun.
  destruct (key_f_keeps g g' Hrun) as (_ & Hopen & Heq).
  injection Heq as Hrow Hcol _ Hcnt.
  split; [|now split]. unfold grid_ok, cells_ok, cursor_ok.
  rewrite Hrow, Hcol, Hcnt, (count_open_list _ _ Hopen).
  repeat split; try apply Hcur; auto.
  rewrite <- Hl, <- (length_fmap open (cells g')), Hopen. apply length_fmap.
Qed.

Lemma grid_ok_move (d : Direction) (g : Grid) :
  grid_ok g -> grid_ok (move_cursor d g).
Proof.
  intros (Hl & Hcur & Hn). destruct (move_cursor_frame d g) as (Hc & _ & Hcnt).
  unfold grid_ok, cells_ok. rewrite Hc, Hcnt.
  repeat split; auto; now apply move_cursor_cursor_ok.
Qed.

(** X9. Only a reset closes a cell: after any other key every cell that was
    open is still open, [open_cells_count] has not gone down, and the
    data-model invariants hold again. *)
Theorem keys_never_close (rnd : nat -> Z) (fuel : nat) (ch : Z) (s s' : Game) :
  grid_ok (grid s) ->
  ch <> chr "r" ->
  loop_step rnd fuel ch s = Ok s' ->
  grid_ok (grid s')
  /\ opens_more (grid s) (grid s')
  /\ open_cells_count (grid s) <= open_cells_count (grid s').
Proof.
  intros Hok Hne Hrun. unfold loop_step, handle_key in Hrun.
  assert (Hsame : grid_ok (grid s) /\ opens_more (grid s) (grid s)
                  /\ open_cells_count (grid s) <= open_cells_count (grid s))
    by (split; [assumption | split; [apply opens_more_refl | lia]]).
  assert (Hmove : forall d,
             grid_ok (move_cursor d (grid s))
             /\ opens_more (grid s) (move_cursor d (grid s))
             /\ open_cells_count (grid s) <= open_cells_count (move_cursor d (grid s))).
  { intros d. destruct (move_cursor_frame d (grid s)) as (Hc & _ & Hcnt).
    split; [now apply grid_ok_move|]. split; [|lia].
    intros i Hi. now rewrite Hc. }
  destruct (ch <? 0); [now injection Hrun as <-|].
  destruct (ch =? chr "d"); [injection Hrun as <-; apply (Hmove Right)|].
  destruct (ch =? chr "a"); [injection Hrun as <-; apply (Hmove Left)|].
  destruct (ch =? chr "s"); [injection Hrun as <-; apply (Hmove Down)|].
  destruct (ch =? chr "w"); [injection Hrun as <-; apply (Hmove Up)|].
  destruct (ch =? chr " ").
  { destruct (key_space (grid s)) as [g| | |] eqn:Hk; try discriminate.
    injection Hrun as <-. simpl.
    destruct (grid_ok_key_space _ _ Hok Hk) as [Hok' Hle].
    destruct (key_space_keeps _ _ Hk) as [_ Hopens].
    split; [assumption|]. now split. }
  destruct (ch =? chr "f").
  { destruct (key_f (grid s)) as [g| | |] eqn:Hk; try discriminate.
    injection Hrun as <-. simpl.
    destruct (grid_ok_key_f _ _ Hok Hk) as (Hok' & Hcnt & Hopen).
    split; [assumption|]. split; [|lia]. intros i Hi. now rewrite Hopen. }
  destruct (ch =? chr "q"); [now injection Hrun as <-|].
  destruct (Z.eqb_spec ch (chr "r")); [contradiction | now injection Hrun as <-].
Qed.

Lemma keys_never_close_witness :
  grid_ok (grid detonated_game)
  /\ opens_more (grid started_game) (grid detonated_game)
  /\ open_cells_count (grid started_game) <= open_cells_count (grid detonated_game).
Proof.
  apply (keys_never_close cyc 0 (chr " ") started_game detonated_game).
  - repeat split; vm_compute; congruence.
  - vm_compute. discriminate.
  - vm_compute. reflexivity.
Defined.

(** ** Flagging and revealing twice *)

Lemma with_flag_twice (c : Cell) :
  with_flag (with_flag c (negb (flag c))) (negb (flag (with_flag c (negb (flag c))))) = c.
Proof. destruct c as [t o f]. unfold with_flag. simpl. now rewrite negb_involutive. Qed.

Lemma key_f_at (g : Grid) (c : Cell) :
  cursor_ok g -> cells g !! cursor_index g = Some c ->
  key_f g = Ok (with_cells g (<[cursor_index g := with_flag c (negb (flag c))]> (cells g))).
Proof.
  intros Hcur Hc. unfold key_f.
  destruct (cursor_wrap g Hcur) as [-> Hlt]. apply Z.ltb_lt in Hlt. rewrite Hlt.
  fold (cursor_index g). now rewrite (read_cell_Some g _ c Hc).
Qed.

(** X10. The flag key flips the flag of the cell under the cursor and nothing
    else, whether the cell is open or not; pressed twice it gives back the
    grid it started from. *)
Theorem flag_twice_restores (g : Grid) :
  cells_ok g -> cursor_ok g ->
  exists c g1,
    cells g !! cursor_index g = Some c
    /\ key_f g = Ok g1
    /\ cells g1 = <[cursor_index g := mkCell (type c) (open c) (negb (flag c))]> (cells g)
    /\ (cur_row g1, cur_col g1, mines_count g1, open_cells_count g1)
       = (cur_row g, cur_col g, mines_count g, open_cells_count g)
    /\ key_f g1 = Ok g.
Proof.
  intros Hl Hcur. destruct (cursor_cell g Hl Hcur) as [c Hc].
  pose proof (cursor_index_lt g Hl Hcur) as Hlt.
  exists c, (with_cells g (<[cursor_index g := with_flag c (negb (flag c))]> (cells g))).
  split; [assumption|]. split; [now apply key_f_at|].
  split; [reflexivity|]. split; [reflexivity|].
  rewrite (key_f_at _ (with_flag c (negb (flag c)))).
  - simpl. unfold cursor_index. simpl. fold (cursor_index g).
    rewrite list_insert_insert_eq.
    change (negb (negb (flag c)))
      with (negb (flag (with_flag c (negb (flag c))))).
    rewrite with_flag_twice. rewrite (list_insert_id _ _ _ Hc).
    now destruct g.
  - exact Hcur.
  - simpl. unfold cursor_index. simpl. fold (cursor_index g).
    now apply list_lookup_insert_eq.
Qed.

Lemma flag_twice_restores_witness :
  exists c g1,
    cells opened_corner_grid !! cursor_index opened_corner_grid = Some c
    /\ key_f opened_corner_grid = Ok g1
    /\ cells g1 = <[cursor_index opened_corner_grid
                    := mkCell (type c) (open c) (negb (flag c))]>
                    (cells opened_corner_grid)
    /\ (cur_row g1, cur_col g1, mines_count g1, open_cells_count g1)
       = (cur_row opened_corner_grid, cur_col opened_corner_grid,
          mines_count opened_corner_grid, open_cells_count opened_corner_grid)
    /\ key_f g1 = Ok opened_corner_grid.
Proof.
  apply (flag_twice_restores opened_corner_grid).
  - reflexivity.
  - vm_compute. repeat split; congruence.
Defined.

Lemma reveal_all_all_open (g : Grid) :
  cells_ok g -> all_open g = true ->
  0 <= open_cells_count g <= ROWS * COLS ->
  reveal_all g = Ok g.
Proof.
  intros Hl Hall Hn. unfold all_open in Hall.
  rewrite reveal_all_ok by assumption.
  rewrite (fmap_with_open_id _ Hall), (count_if_none open _ Hall), Z.add_0_r.
  now destruct g.
Qed.

(** X11. Revealing twice is revealing once: on a grid that satisfies the
    data-model invariants the grid left by a reveal is not changed by
    another reveal at the same cursor, detonation included. *)
Theorem reveal_twice_is_once (g g1 : Grid) :
  grid_ok g -> key_space g = Ok g1 -> key_space g1 = Ok g1.
Proof.
  intros Hok Hrun. pose proof Hok as (Hl & Hcur & Hn).
  destruct (cursor_cell g Hl Hcur) as [c Hc].
  destruct (is_mine c) eqn:Hm.
  - destruct (key_space_mine g c Hok Hc Hm) as (g' & Hrun' & Hl1 & Hall & Hcnt & Hsame).
    assert (g' = g1) by congruence. subst g'. injection Hsame as Hrow Hcol.
    assert (Hcur1 : cursor_ok g1) by (unfold cursor_ok; now rewrite Hrow, Hcol).
    destruct (cursor_cell g1 Hl1 Hcur1) as [c1 Hc1].
    rewrite (key_space_at g1 c1 Hl1 Hcur1 Hc1).
    rewrite (forallb_lookup open _ _ _ Hall Hc1). cbv zeta.
    destruct (is_mine c1); [|reflexivity].
    apply reveal_all_all_open; auto. rewrite Hcnt. unfold ROWS, COLS. lia.
  - pose proof Hrun as Hrun0.
    rewrite (key_space_at g c Hl Hcur Hc), Hm in Hrun. cbv zeta in Hrun.
    injection Hrun as <-. destruct (open c) eqn:Ho; [exact Hrun0|].
    destruct (opened_at_count g (cursor_index g) c Hl Hn Hc Ho) as (_ & _ & Hl1).
    pose proof (cursor_index_lt g Hl Hcur) as Hlt.
    rewrite (key_space_at _ (with_open c true) Hl1 Hcur).
    + simpl. unfold is_mine in *. simpl. now rewrite Hm.
    + unfold opened_at, cursor_index. simpl. fold (cursor_index g).
      now apply list_lookup_insert_eq.
Qed.

Lemma reveal_twice_is_once_witness :
  key_space (grid detonated_game) = Ok (grid detonated_game).
Proof.
  apply (reveal_twice_is_once started_grid (grid detonated_game)).
  - repeat split; vm_compute; congruence.
  - vm_compute. reflexivity.
Defined.

(** ** The neighbour counts belong to the mine layout *)

Lemma for_each_ext {A S : Type} (f h : S -> A -> result S) (l : list A) :
  (forall s x, f s x = h s x) -> forall s, for_each f l s = for_each h l s.
Proof.
  intros Hfh. induction l as [|x l IH]; intros s; [reflexivity|].
  cbn [for_each]. rewrite Hfh. destruct (h s x); simpl; auto.
Qed.

Lemma cell_at_kind (g1 g2 : Grid) (row col : Z) :
  type <$> cells g1 = type <$> cells g2 ->
  (c <~ cell_at g1 row col; Ok (type c)) = (c <~ cell_at g2 row col; Ok (type c)).
Proof.
  intros Ht. unfold cell_at, read_cell.
  destruct (size_wrap (row * COLS + col) <? ROWS * COLS); [|reflexivity].
  pose proof (f_equal (fun l => l !! Z.to_nat (size_wrap (row * COLS + col))) Ht) as Hi.
  simpl in Hi. rewrite !list_lookup_fmap in Hi.
  destruct (cells g1 !! _), (cells g2 !! _); simpl in *; congruence.
Qed.

Lemma nbor_step_kind (g1 g2 : Grid) (row col dy nbors dx : Z) :
  type <$> cells g1 = type <$> cells g2 ->
  nbor_step g1 row col dy nbors dx = nbor_step g2 row col dy nbors dx.
Proof.
  intros Ht. unfold nbor_step.
  destruct ((dx =? 0) && (dy =? 0)); [reflexivity|].
  destruct (int_add (int_of_size row) dy) as [r| | |]; try reflexivity. cbn [bind].
  destruct (int_add (int_of_size col) dx) as [c| | |]; try reflexivity. cbn [bind].
  destruct ((r <? 0) || (r >=? ROWS) || (c <? 0) || (c >=? COLS)); [reflexivity|].
  pose proof (cell_at_kind g1 g2 (size_wrap r) (size_wrap c) Ht) as Hk.
  destruct (cell_at g1 _ _), (cell_at g2 _ _); simpl in Hk; try congruence.
  cbn [bind]. injection Hk as ->. reflexivity.
Qed.

Lemma count_nbors_kind (g1 g2 : Grid) (row col : Z) :
  type <$> cells g1 = type <$> cells g2 ->
  count_nbors g1 row col = count_nbors g2 row col.
Proof.
  intros Ht. unfold count_nbors. apply for_each_ext. intros n dy.
  apply for_each_ext. intros n' dx. now apply nbor_step_kind.
Qed.

(** X12. [count_nbors] looks at the kinds of the cells and at nothing else:
    two grids with the same mine layout give the same result at every
    position, on the grid or off it, whatever is open or flagged and
    wherever the cursor is. *)
Theorem count_nbors_kinds_only (g1 g2 : Grid) (row col : Z) :
  type <$> cells g1 = type <$> cells g2 ->
  count_nbors g1 row col = count_nbors g2 row col.
Proof.
  intros Hkinds. unfold count_nbors.
  apply for_each_ext. intros nbors dy.
  apply for_each_ext. intros nbors' dx.
  now apply nbor_step_kind.
Qed.

Lemma count_nbors_kinds_only_witness :
  count_nbors started_grid 2 5 = count_nbors (grid detonated_game) 2 5.
Proof.
  apply (count_nbors_kinds_only started_grid (grid detonated_game) 2 5).
  reflexivity.
Defined.

(** X13. The digit shown for a cell does not change during a round: no key but
    [r] changes the result of [count_nbors] at any position. *)
Theorem keys_keep_neighbour_counts (rnd : nat -> Z) (fuel : nat) (ch : Z)
        (s s' : Game) (row col : Z) :
  ch <> chr "r" ->
  loop_step rnd fuel ch s = Ok s' ->
  count_nbors (grid s') row col = count_nbors (grid s) row col.
Proof.
  intros Hne Hrun.
  destruct (loop_step_steady rnd fuel ch s s' Hne Hrun) as (Ht & _).
  now apply count_nbors_kind.
Qed.

Lemma keys_keep_neighbour_counts_witness :
  count_nbors (grid detonated_game) 2 5 = count_nbors (grid started_game) 2 5.
Proof.
  apply (keys_keep_neighbour_counts cyc 0 (chr " ") started_game detonated_game 2 5).
  - vm_compute. discriminate.
  - vm_compute. reflexivity.
Defined.

(** * Drawing *)

Lemma putchar_chr (out : list ascii) (a : ascii) : putchar out (chr a) = out ++ [a].
Proof.
  unfold putchar, chr. pose proof (nat_ascii_bounded a) as Hb.
  rewrite Z.mod_small by lia. now rewrite Nat2Z.id, ascii_nat_embedding.
Qed.

Lemma putchar_digit (out : list ascii) (d : Z) :
  0 <= d <= 9 -> putchar out (chr "0" + d) = out ++ [digit d].
Proof.
  intros Hd. unfold putchar, digit. change (chr "0") with 48.
  now rewrite Z.mod_small by lia.
Qed.

Lemma border_loop (l : list Z) (out : list ascii) :
  foldl (fun out _ => putchar out (chr "-")) out l
  = out ++ List.repeat "-"%char (length l).
Proof.
  revert out. induction l as [|x l IH]; intros out; simpl.
  - now rewrite app_nil_r.
  - rewrite IH, putchar_chr, <- app_assoc. reflexivity.
Qed.

Lemma draw_border_text (out : list ascii) : draw_border out = out ++ border_text.
Proof.
  unfold draw_border, border_text. rewrite border_loop, putchar_chr, length_seqZ.
  now rewrite <- app_assoc.
Qed.

Lemma draw_header_text (g : Grid) (out : list ascii) :
  draw_header g out = out ++ draw_header g [].
Proof. reflexivity. Qed.

Lemma for_each_append {A : Type} (body : list ascii -> A -> result (list ascii))
      (f : A -> list ascii) (l : list A) :
  (forall x out, In x l -> body out x = Ok (out ++ f x)) ->
  forall out, for_each body l out = Ok (out ++ List.flat_map f l).
Proof.
  induction l as [|x l IH]; intros Hb out.
  - simpl. now rewrite app_nil_r.
  - cbn [for_each List.flat_map]. rewrite Hb by now left. cbn [bind].
    rewrite IH by (intros y o Hy; apply Hb; now right).
    now rewrite <- app_assoc.
Qed.

Lemma neighbor_mines_bounds (g : Grid) (r c : Z) :
  0 <= r < ROWS -> 0 <= c < COLS -> 0 <= neighbor_mines g r c <= 8.
Proof.
  intros Hr Hc. unfold neighbor_mines.
  pose proof (List.filter_length_le (mine_at g) (moore_neighbors r c)) as Hle.
  rewrite (moore_length r c Hr Hc) in Hle. unfold expected_neighbors in Hle.
  destruct (on_border r ROWS), (on_border c COLS); lia.
Qed.

Lemma draw_cell_text (g : Grid) (r c : Z) (out : list ascii) :
  cells_ok g -> 0 <= r < ROWS -> 0 <= c < COLS ->
  draw_cell g r out c = Ok (out ++ cell_text g r c).
Proof.
  intros Hl Hr Hc.
  assert (Hin : on_grid (r, c) = true) by now apply on_grid_range.
  destruct (cell_at_on_grid g r c Hl Hin) as (cell & Hcell & Hat).
  unfold draw_cell, cell_text. rewrite Hat, Hcell. cbn [bind]. cbv zeta.
  assert (Hl_ : forall o, putchar o (if at_cursor g r c then chr "[" else chr " ")
                          = o ++ [if at_cursor g r c then "["%char else " "%char])
    by (intros o; destruct (at_cursor g r c); apply putchar_chr).
  assert (Hr_ : forall o, putchar o (if at_cursor g r c then chr "]" else chr " ")
                          = o ++ [if at_cursor g r c then "]"%char else " "%char])
    by (intros o; destruct (at_cursor g r c); apply putchar_chr).
  rewrite Hl_.
  assert (Hmid : (if negb (open cell)
                  then Ok (putchar (out ++ [if at_cursor g r c then "["%char else " "%char])
                                   (if flag cell then chr "F" else chr "#"))
                  else match type cell with
                       | EMPTY =>
                           nbors <~ count_nbors g (size_wrap r) (size_wrap c);
                           if nbors =? 0
                           then Ok (putchar (out ++ [if at_cursor g r c
                                                     then "["%char else " "%char])
                                            (chr " "))
                           else ch <~ int_add (chr "0") (int_of_size nbors);
                                Ok (putchar (out ++ [if at_cursor g r c
                                                     then "["%char else " "%char]) ch)
                       | MINE => Ok (putchar (out ++ [if at_cursor g r c
                                                      then "["%char else " "%char])
                                             (chr "*"))
                       | COUNT => Ok (putchar (out ++ [if at_cursor g r c
                                                       then "["%char else " "%char])
                                              (chr "?"))
                       end)
                 = Ok ((out ++ [if at_cursor g r c then "["%char else " "%char])
                         ++ [cell_glyph g r c cell])).
  { unfold cell_glyph. destruct (open cell); simpl negb; cbv iota.
    - destruct (type cell); rewrite ?putchar_chr; try reflexivity.
      unfold ROWS, COLS in *.
      rewrite !size_wrap_small by (unfold SIZE_BITS; lia).
      rewrite count_nbors_neighbor_mines by (unfold INT_MAX; auto; lia).
      cbn [bind].
      pose proof (neighbor_mines_bounds g r c Hr Hc) as Hb.
      destruct (neighbor_mines g r c =? 0); [reflexivity|].
      rewrite int_of_size_small by (unfold INT_MAX; lia).
      unfold int_add. cbv zeta.
      assert (Hint : (INT_MIN <=? chr "0" + neighbor_mines g r c)
                     && (chr "0" + neighbor_mines g r c <=? INT_MAX) = true)
        by (change (chr "0") with 48; unfold INT_MIN, INT_MAX; lia).
      rewrite Hint. cbn [bind]. now rewrite putchar_digit by lia.
    - destruct (flag cell); now rewrite putchar_chr. }
  rewrite Hmid. cbn [bind]. rewrite Hr_, <- !app_assoc. reflexivity.
Qed.

Lemma draw_row_text (g : Grid) (r : Z) (out : list ascii) :
  cells_ok g -> 0 <= r < ROWS ->
  draw_row g out r = Ok (out ++ row_text g r).
Proof.
  intros Hl Hr. unfold draw_row, row_text. cbv zeta. rewrite putchar_chr.
  rewrite (for_each_append (draw_cell g r) (cell_text g r)).
  - cbn [bind]. rewrite <- !app_assoc. reflexivity.
  - intros c o Hc. apply list_elem_of_In, elem_of_seqZ in Hc.
    apply draw_cell_text; auto; lia.
Qed.

Lemma draw_grid_text (g : Grid) (out : list ascii) :
  cells_ok g -> draw_grid g out = Ok (out ++ frame_text g).
Proof.
  intros Hl. unfold draw_grid, frame_text. cbv zeta.
  rewrite draw_header_text, draw_border_text.
  rewrite (for_each_append (draw_row g) (row_text g)).
  - cbn [bind]. rewrite draw_border_text, <- !app_assoc. reflexivity.
  - intros r o Hr. apply list_elem_of_In, elem_of_seqZ in Hr.
    apply draw_row_text; auto; lia.
Qed.

(** X14. [draw_grid] on a whole grid never fails and writes the frame: the
    header line, a border of [COLS*3+2] dashes, one line per row (a bar,
    three characters per cell, a bar) and the border again.  A concealed
    cell shows [#], or [F] when flagged; an open one [*] for a mine, a
    blank or the digit of [count_nbors] for an empty cell; the cell under
    the cursor stands between brackets. *)
Theorem draw_grid_frame (g : Grid) (out : list ascii) :
  cells_ok g ->
  draw_grid g out
  = Ok (out ++ draw_header g [] ++ border_text
            ++ List.flat_map (row_text g) (seqZ 0 ROWS) ++ border_text).
Proof.
  intros Hl. rewrite (draw_grid_text g out Hl).
  unfold frame_text. reflexivity.
Qed.

Lemma draw_grid_frame_witness :
  draw_grid started_grid []
  = Ok ([] ++ draw_header started_grid [] ++ border_text
           ++ List.flat_map (row_text started_grid) (seqZ 0 ROWS) ++ border_text).
Proof. apply (draw_grid_frame started_grid []). reflexivity. Defined.

(** ** Lines and widths *)

Lemma occurrences_app (a : ascii) (l1 l2 : list ascii) :
  occurrences a (l1 ++ l2) = (occurrences a l1 + occurrences a l2)%nat.
Proof. apply count_occ_app. Qed.

Lemma occurrences_cons_other (a b : ascii) (l : list ascii) :
  b <> a -> occurrences a (b :: l) = occurrences a l.
Proof. intros Hne. unfold occurrences. now apply count_occ_cons_neq. Qed.

Lemma digit_is_digit (d : Z) :
  0 <= d <= 9 ->
  In (digit d) ["0"; "1"; "2"; "3"; "4"; "5"; "6"; "7"; "8"; "9"]%char.
Proof.
  intros Hd.
  assert (Hcases : d = 0 \/ d = 1 \/ d = 2 \/ d = 3 \/ d = 4 \/ d = 5 \/ d = 6
                   \/ d = 7 \/ d = 8 \/ d = 9) by lia.
  repeat (destruct Hcases as [-> | Hcases]; [vm_compute; tauto|]).
  subst d. vm_compute. tauto.
Qed.

Lemma occurrences_digits (a : ascii) (fuel : nat) :
  ~ In a ["0"; "1"; "2"; "3"; "4"; "5"; "6"; "7"; "8"; "9"]%char ->
  forall n acc, occurrences a (dec_digits fuel n acc) = occurrences a acc.
Proof.
  intros Ha. induction fuel as [|fuel IH]; intros n acc; [reflexivity|].
  cbn [dec_digits].
  assert (Hd : occurrences a (digit (n mod 10) :: acc) = occurrences a acc).
  { apply occurrences_cons_other. intros Heq. apply Ha. rewrite <- Heq.
    apply digit_is_digit. pose proof (Z.mod_pos_bound n 10 ltac:(lia)). lia. }
  destruct (n <? 10); [exact Hd | now rewrite IH].
Qed.

Lemma occurrences_flat_map {A : Type} (a : ascii) (f : A -> list ascii) (k : nat)
      (l : list A) :
  (forall x, In x l -> occurrences a (f x) = k) ->
  occurrences a (List.flat_map f l) = (k * length l)%nat.
Proof.
  induction l as [|x l IH]; intros Hf; [simpl; lia|].
  cbn [List.flat_map length]. rewrite occurrences_app, (Hf x) by now left.
  rewrite IH by (intros y Hy; apply Hf; now right). lia.
Qed.

Lemma header_one_line (g : Grid) : occurrences NL (draw_header g []) = 1%nat.
Proof.
  unfold draw_header. rewrite !occurrences_app.
  unfold print_size. rewrite !occurrences_digits by (vm_compute; intuition discriminate).
  reflexivity.
Qed.

Lemma glyph_not_newline (g : Grid) (r c : Z) (cell : Cell) :
  0 <= r < ROWS -> 0 <= c < COLS -> cell_glyph g r c cell <> NL.
Proof.
  intros Hr Hc. unfold cell_glyph.
  destruct (open cell); [|destruct (flag cell); discriminate].
  destruct (type cell); try discriminate.
  destruct (neighbor_mines g r c =? 0); [discriminate|].
  pose proof (neighbor_mines_bounds g r c Hr Hc) as Hb.
  intros Heq. pose proof (digit_is_digit (neighbor_mines g r c) ltac:(lia)) as Hin.
  rewrite Heq in Hin. vm_compute in Hin. intuition discriminate.
Qed.

Lemma cell_text_shape (g : Grid) (r c : Z) :
  cells_ok g -> 0 <= r < ROWS -> 0 <= c < COLS ->
  length (cell_text g r c) = 3%nat /\ occurrences NL (cell_text g r c) = 0%nat.
Proof.
  intros Hl Hr Hc. unfold cell_text.
  destruct (lookup_lt_is_Some_2 (cells g) (Z.to_nat (r * COLS + c))) as [cell ->];
    [rewrite Hl; unfold ROWS, COLS in *; lia|].
  split; [reflexivity|].
  pose proof (glyph_not_newline g r c cell Hr Hc) as Hg.
  rewrite !occurrences_cons_other; auto; destruct (at_cursor g r c); discriminate.
Qed.

Lemma row_text_shape (g : Grid) (r : Z) :
  cells_ok g -> 0 <= r < ROWS ->
  length (row_text g r) = Z.to_nat (COLS * 3 + 3)
  /\ occurrences NL (row_text g r) = 1%nat.
Proof.
  intros Hl Hr. unfold row_text.
  assert (Hcells : forall c, In c (seqZ 0 COLS) ->
                             length (cell_text g r c) = 3%nat
                             /\ occurrences NL (cell_text g r c) = 0%nat).
  { intros c Hc. apply list_elem_of_In, elem_of_seqZ in Hc.
    apply cell_text_shape; auto; lia. }
  split.
  - cbn [length]. rewrite length_app, List.flat_map_constant_length with (c := 3%nat)
      by (intros c Hc; now apply Hcells).
    rewrite length_seqZ. reflexivity.
  - rewrite occurrences_cons_other by discriminate.
    rewrite occurrences_app, (occurrences_flat_map NL _ 0) by
      (intros c Hc; now apply Hcells).
    reflexivity.
Qed.

Lemma frame_lines (g : Grid) :
  cells_ok g -> occurrences NL (frame_text g) = Z.to_nat (ROWS + 3).
Proof.
  intros Hl. unfold frame_text.
  rewrite !occurrences_app, header_one_line.
  rewrite (occurrences_flat_map NL _ 1).
  - rewrite length_seqZ. reflexivity.
  - intros r Hr. apply list_elem_of_In, elem_of_seqZ in Hr.
    apply row_text_shape; auto; lia.
Qed.

(** X15. A redraw moves the terminal's cursor up by [ROWS + 3] lines and then
    writes a frame of exactly [ROWS + 3] lines: each frame lands on the
    one before it. *)
Theorem redraw_overwrites_frame (g : Grid) (out : list ascii) :
  cells_ok g ->
  exists frame,
    redraw g out = Ok (out ++ [ESC; "["; "1"; "3"; "A"]%char ++ frame)
    /\ draw_grid g [] = Ok frame
    /\ occurrences NL frame = Z.to_nat (ROWS + 3)
    /\ print_int (ROWS + 3) = ["1"; "3"]%char.
Proof.
  intros Hl. exists (frame_text g). unfold redraw.
  rewrite !draw_grid_text by assumption.
  split; [unfold clear_terminal_and_move_up; now rewrite <- !app_assoc|].
  split; [reflexivity|]. split; [now apply frame_lines | reflexivity].
Qed.

Lemma redraw_overwrites_frame_witness :
  exists frame,
    redraw started_grid [] = Ok ([] ++ [ESC; "["; "1"; "3"; "A"]%char ++ frame)
    /\ draw_grid started_grid [] = Ok frame
    /\ occurrences NL frame = Z.to_nat (ROWS + 3)
    /\ print_int (ROWS + 3) = ["1"; "3"]%char.
Proof. apply (redraw_overwrites_frame started_grid []). reflexivity. Defined.

(** X16. Every line of the board is as wide as the border: [draw_row] writes a
    bar, [3*COLS] characters, a bar and the only newline of the line, and
    [draw_border] writes [3*COLS + 2] dashes and a newline. *)
Theorem draw_row_width (g : Grid) (r : Z) (out : list ascii) :
  cells_ok g -> 0 <= r < ROWS ->
  exists body,
    draw_row g out r = Ok (out ++ "|"%char :: body ++ ["|"%char; NL])
    /\ length body = Z.to_nat (COLS * 3)
    /\ occurrences NL body = 0%nat
    /\ draw_border out
       = out ++ List.repeat "-"%char (Z.to_nat (COLS * 3 + 2)) ++ [NL].
Proof.
  intros Hl Hr. exists (List.flat_map (cell_text g r) (seqZ 0 COLS)).
  split; [now apply draw_row_text|].
  assert (Hcells : forall c, In c (seqZ 0 COLS) ->
                             length (cell_text g r c) = 3%nat
                             /\ occurrences NL (cell_text g r c) = 0%nat).
  { intros c Hc. apply list_elem_of_In, elem_of_seqZ in Hc.
    apply cell_text_shape; auto; lia. }
  split.
  { rewrite List.flat_map_constant_length with (c := 3%nat)
      by (intros c Hc; now apply Hcells).
    rewrite length_seqZ. reflexivity. }
  split; [|apply draw_border_text].
  rewrite (occurrences_flat_map NL _ 0) by (intros c Hc; now apply Hcells).
  reflexivity.
Qed.

Lemma draw_row_width_witness :
  exists body,
    draw_row started_grid [] 3 = Ok ([] ++ "|"%char :: body ++ ["|"%char; NL])
    /\ length body = Z.to_nat (COLS * 3)
    /\ occurrences NL body = 0%nat
    /\ draw_border []
       = [] ++ List.repeat "-"%char (Z.to_nat (COLS * 3 + 2)) ++ [NL].
Proof.
  apply (draw_row_width started_grid 3 []); [reflexivity | unfold ROWS; lia].
Defined.

(** ** What the screen does not show *)

Lemma flat_map_ext_in {A B : Type} (f h : A -> list B) (l : list A) :
  (forall x, In x l -> f x = h x) -> List.flat_map f l = List.flat_map h l.
Proof.
  induction l as [|x l IH]; intros Hfh; [reflexivity|].
  cbn [List.flat_map]. rewrite (Hfh x) by now left.
  now rewrite IH by (intros y Hy; apply Hfh; now right).
Qed.

Lemma cell_text_concealed (g1 g2 : Grid) (r c : Z) :
  forallb (fun cell => negb (open cell)) (cells g1) = true ->
  open <$> cells g1 = open <$> cells g2 ->
  flag <$> cells g1 = flag <$> cells g2 ->
  cur_row g1 = cur_row g2 -> cur_col g1 = cur_col g2 ->
  cell_text g1 r c = cell_text g2 r c.
Proof.
  intros Hshut Hopen Hflag Hrow Hcol. unfold cell_text, at_cursor.
  rewrite Hrow, Hcol.
  pose proof (f_equal (fun l => l !! Z.to_nat (r * COLS + c)) Hopen) as Ho.
  pose proof (f_equal (fun l => l !! Z.to_nat (r * COLS + c)) Hflag) as Hf.
  simpl in Ho, Hf. rewrite !list_lookup_fmap in Ho, Hf.
  destruct (cells g1 !! Z.to_nat (r * COLS + c)) as [c1|] eqn:H1,
           (cells g2 !! Z.to_nat (r * COLS + c)) as [c2|] eqn:H2;
    simpl in Ho, Hf; try discriminate; [|reflexivity].
  injection Ho as Ho. injection Hf as Hf.
  pose proof (forallb_lookup _ _ _ _ Hshut H1) as Hc1.
  apply negb_true_iff in Hc1. unfold cell_glyph.
  now rewrite <- Ho, Hc1, Hf.
Qed.

(** X17. While every cell is concealed the screen tells nothing about where
    the mines are: two whole grids with the same flags, cursor and
    counters and no open cell are drawn alike, whatever their mine
    layouts. *)
Theorem concealed_board_hides_mines (g1 g2 : Grid) (out : list ascii) :
  cells_ok g1 -> cells_ok g2 ->
  forallb (fun cell => negb (open cell)) (cells g1) = true ->
  open <$> cells g1 = open <$> cells g2 ->
  flag <$> cells g1 = flag <$> cells g2 ->
  (cur_row g1, cur_col g1, mines_count g1, open_cells_count g1)
  = (cur_row g2, cur_col g2, mines_count g2, open_cells_count g2) ->
  draw_grid g1 out = draw_grid g2 out.
Proof.
  intros Hl1 Hl2 Hshut Hopen Hflag Heq. injection Heq as Hrow Hcol Hm Hn.
  rewrite !draw_grid_text by assumption. do 2 f_equal.
  unfold frame_text, draw_header. rewrite Hm, Hn. do 2 f_equal.
  f_equal. apply flat_map_ext_in. intros r _. unfold row_text. do 2 f_equal.
  apply flat_map_ext_in. intros c _. now apply cell_text_concealed.
Qed.

Lemma concealed_board_hides_mines_witness :
  draw_grid hidden_mine_grid []
  = draw_grid (mkGrid (replicate 99 cleared_cell ++ [mkCell MINE false false])
                      0 0 1 0) [].
Proof.
  apply (concealed_board_hides_mines
           hidden_mine_grid
           (mkGrid (replicate 99 cleared_cell ++ [mkCell MINE false false]) 0 0 1 0)
           []); reflexivity.
Defined.

(** ** The brackets of the cursor *)

Lemma occurrences_flat_map_sum {A : Type} (a : ascii) (f : A -> list ascii)
      (k : A -> nat) (l : list A) :
  (forall x, In x l -> occurrences a (f x) = k x) ->
  occurrences a (List.flat_map f l) = list_sum (List.map k l).
Proof.
  induction l as [|x l IH]; intros Hf; [reflexivity|].
  cbn [List.flat_map List.map list_sum]. rewrite occurrences_app, (Hf x) by now left.
  now rewrite IH by (intros y Hy; apply Hf; now right).
Qed.

Lemma glyph_alphabet (g : Grid) (r c : Z) (cell : Cell) :
  0 <= r < ROWS -> 0 <= c < COLS ->
  In (cell_glyph g r c cell)
     [" "; "*"; "?"; "F"; "#"; "0"; "1"; "2"; "3"; "4"; "5"; "6"; "7"; "8"; "9"]%char.
Proof.
  intros Hr Hc. unfold cell_glyph.
  destruct (open cell); [|destruct (flag cell); simpl; tauto].
  destruct (type cell); try (simpl; tauto).
  destruct (neighbor_mines g r c =? 0); [simpl; tauto|].
  pose proof (neighbor_mines_bounds g r c Hr Hc) as Hb.
  do 5 right. apply digit_is_digit. lia.
Qed.

Lemma cell_text_brackets (g : Grid) (r c : Z) :
  cells_ok g -> 0 <= r < ROWS -> 0 <= c < COLS ->
  occurrences "["%char (cell_text g r c) = (if at_cursor g r c then 1 else 0)%nat
  /\ occurrences "]"%char (cell_text g r c) = (if at_cursor g r c then 1 else 0)%nat.
Proof.
  intros Hl Hr Hc. unfold cell_text.
  destruct (lookup_lt_is_Some_2 (cells g) (Z.to_nat (r * COLS + c))) as [cell ->];
    [rewrite Hl; unfold ROWS, COLS in *; lia|].
  pose proof (glyph_alphabet g r c cell Hr Hc) as Hg.
  assert (Hopen : cell_glyph g r c cell <> "["%char)
    by (intros Heq; rewrite Heq in Hg; vm_compute in Hg; intuition discriminate).
  assert (Hclose : cell_glyph g r c cell <> "]"%char)
    by (intros Heq; rewrite Heq in Hg; vm_compute in Hg; intuition discriminate).
  unfold occurrences in *.
  destruct (at_cursor g r c); cbn [count_occ];
    repeat match goal with
           | |- context [ascii_dec ?x ?y] => destruct (ascii_dec x y); try congruence
           end; auto.
Qed.

Lemma one_cursor (rowv colv : Z) :
  0 <= rowv < ROWS -> 0 <= colv < COLS ->
  list_sum
    (List.map
       (fun r => list_sum
                   (List.map (fun c => if (rowv =? size_wrap r) && (colv =? size_wrap c)
                                       then 1%nat else 0%nat)
                             (seqZ 0 COLS)))
       (seqZ 0 ROWS)) = 1%nat.
Proof.
  unfold ROWS, COLS. intros Hr Hc.
  assert (Hrs : rowv = 0 \/ rowv = 1 \/ rowv = 2 \/ rowv = 3 \/ rowv = 4
                \/ rowv = 5 \/ rowv = 6 \/ rowv = 7 \/ rowv = 8 \/ rowv = 9) by lia.
  assert (Hcs : colv = 0 \/ colv = 1 \/ colv = 2 \/ colv = 3 \/ colv = 4
                \/ colv = 5 \/ colv = 6 \/ colv = 7 \/ colv = 8 \/ colv = 9) by lia.
  repeat (destruct Hrs as [-> | Hrs]);
    repeat (destruct Hcs as [-> | Hcs]); subst; vm_compute; reflexivity.
Qed.

Lemma row_text_brackets (g : Grid) (r : Z) (a : ascii) :
  cells_ok g -> 0 <= r < ROWS ->
  a = "["%char \/ a = "]"%char ->
  occurrences a (row_text g r)
  = list_sum (List.map (fun c => if at_cursor g r c then 1%nat else 0%nat)
                       (seqZ 0 COLS)).
Proof.
  intros Hl Hr Ha. unfold row_text.
  rewrite occurrences_cons_other by (destruct Ha; subst; discriminate).
  rewrite occurrences_app.
  rewrite (occurrences_flat_map_sum a _
             (fun c => if at_cursor g r c then 1%nat else 0%nat)).
  - replace (occurrences a ["|"%char; NL]) with 0%nat; [lia|].
    destruct Ha; subst; reflexivity.
  - intros c Hc. apply list_elem_of_In, elem_of_seqZ in Hc.
    destruct (cell_text_brackets g r c Hl Hr ltac:(lia)) as [Ho Hc'].
    destruct Ha; now subst.
Qed.

Lemma frame_brackets (g : Grid) (a : ascii) :
  cells_ok g -> cursor_ok g ->
  a = "["%char \/ a = "]"%char ->
  occurrences a (frame_text g) = 1%nat.
Proof.
  intros Hl [Hrow Hcol] Ha. unfold frame_text.
  assert (Hhead : occurrences a (draw_header g []) = 0%nat).
  { unfold draw_header, print_size. rewrite !occurrences_app.
    rewrite !occurrences_digits
      by (destruct Ha; subst; vm_compute; intuition discriminate).
    destruct Ha; subst; reflexivity. }
  assert (Hborder : occurrences a border_text = 0%nat)
    by (destruct Ha; subst; reflexivity).
  rewrite !occurrences_app, Hhead, Hborder.
  rewrite (occurrences_flat_map_sum a _
             (fun r => list_sum
                         (List.map (fun c => if at_cursor g r c then 1%nat else 0%nat)
                                   (seqZ 0 COLS)))).
  - unfold at_cursor. rewrite (one_cursor (cur_row g) (cur_col g) Hrow Hcol). lia.
  - intros r Hr. apply list_elem_of_In, elem_of_seqZ in Hr.
    apply row_text_brackets; auto; lia.
Qed.

(** X18. With the cursor on the grid the frame holds exactly one opening and
    one closing bracket: one cell, and only one, is marked. *)
Theorem one_cell_is_bracketed (g : Grid) :
  cells_ok g -> cursor_ok g ->
  exists frame,
    draw_grid g [] = Ok frame
    /\ occurrences "["%char frame = 1%nat
    /\ occurrences "]"%char frame = 1%nat
    /\ exists glyph,
         draw_cell g (cur_row g) [] (cur_col g) = Ok ["["%char; glyph; "]"%char].
Proof.
  intros Hl Hcur. exists (frame_text g).
  split; [now apply draw_grid_text|].
  split; [apply frame_brackets; auto|].
  split; [apply frame_brackets; auto|].
  destruct (cursor_cell g Hl Hcur) as [cell Hcell].
  exists (cell_glyph g (cur_row g) (cur_col g) cell).
  rewrite draw_cell_text by (auto; apply Hcur).
  unfold cell_text. fold (cursor_index g). rewrite Hcell.
  assert (Hat : at_cursor g (cur_row g) (cur_col g) = true).
  { unfold at_cursor. destruct Hcur as [Hr Hc]. unfold ROWS, COLS in *.
    rewrite !size_wrap_small by (unfold SIZE_BITS; lia). lia. }
  now rewrite Hat.
Qed.

Lemma one_cell_is_bracketed_witness :
  exists frame,
    draw_grid started_grid [] = Ok frame
    /\ occurrences "["%char frame = 1%nat
    /\ occurrences "]"%char frame = 1%nat
    /\ exists glyph,
         draw_cell started_grid (cur_row started_grid) [] (cur_col started_grid)
         = Ok ["["%char; glyph; "]"%char].
Proof.
  apply (one_cell_is_bracketed started_grid).
  - reflexivity.
  - vm_compute. repeat split; congruence.
Defined.

(** ** The printed numbers on sample values *)

Example print_size_zero : print_size 0 = ["0"]%char.
Proof. reflexivity. Qed.

Example print_size_100 : print_size 100 = ["1"; "0"; "0"]%char.
Proof. reflexivity. Qed.

Example print_size_max :
  print_size (2 ^ 64 - 1)
  = ["1"; "8"; "4"; "4"; "6"; "7"; "4"; "4"; "0"; "7"; "3"; "7"; "0"; "9"; "5";
     "5"; "1"; "6"; "1"; "5"]%char.
Proof. vm_compute. reflexivity. Qed.

Example print_int_negative : print_int (-13) = ["-"; "1"; "3"]%char.
Proof. reflexivity. Qed.

(** * The loop of main *)

Lemma play_quit (rnd : nat -> Z) (fuel : nat) (keys : list Z) (s : Game)
      (out : list ascii) :
  quit s = true -> play rnd fuel keys s out = Ok (s, out).
Proof. intros Hq. destruct keys; simpl; now rewrite Hq. Qed.

Lemma handle_key_q (rnd : nat -> Z) (fuel : nat) (s : Game) :
  handle_key rnd fuel (chr "q") s = Ok (mkGame (grid s) true (rand_calls s)).
Proof. reflexivity. Qed.

(** X19. The key [q] ends the loop: it is handled and the grid drawn once more,
    then the loop stops with [quit] set; the keys typed after it are never
    handled and nothing more is written. *)
Theorem quit_ends_the_loop (rnd : nat -> Z) (fuel : nat) (before after : list Z)
        (s : Game) (out : list ascii) :
  play rnd fuel (before ++ chr "q" :: after) s out
  = play rnd fuel (before ++ [chr "q"]) s out
  /\ (forall s' out', play rnd fuel (before ++ [chr "q"]) s out = Ok (s', out') ->
                      quit s' = true).
Proof.
  revert s out. induction before as [|k before IH]; intros s out.
  - cbn [app play]. destruct (quit s) eqn:Hq.
    + split; [reflexivity|]. intros s' out' Hrun. now injection Hrun as <- _.
    + change (chr "q" <? 0) with false. cbv iota. rewrite handle_key_q.
      cbn [bind grid quit].
      destruct (redraw (grid s) out) as [out1| | |]; cbn [bind];
        try (split; [reflexivity | discriminate]).
      rewrite play_quit by reflexivity. split; [reflexivity|].
      intros s' out' Hrun. now injection Hrun as <- _.
  - cbn [app play]. destruct (quit s) eqn:Hq.
    + split; [reflexivity|]. intros s' out' Hrun. now injection Hrun as <- _.
    + destruct (k <? 0); [apply IH|].
      destruct (handle_key rnd fuel k s) as [s1| | |]; cbn [bind];
        try (split; [reflexivity | discriminate]).
      destruct (redraw (grid s1) out) as [out1| | |]; cbn [bind];
        try (split; [reflexivity | discriminate]).
      apply IH.
Qed.

Lemma play_current (rnd : nat -> Z) (fuel : nat) (keys : list Z) :
  rand_ok rnd ->
  forall (s : Game) (out : list ascii) (s' : Game) (out' : list ascii),
    game_ok (grid s) ->
    (exists pre, draw_grid (grid s) pre = Ok out) ->
    play rnd fuel keys s out = Ok (s', out') ->
    game_ok (grid s') /\ exists pre, draw_grid (grid s') pre = Ok out'.
Proof.
  intros Hr. induction keys as [|ch keys IH]; intros s out s' out' Hok Hout Hrun;
    cbn [play] in Hrun; destruct (quit s);
    try (injection Hrun as <- <-; now split).
  destruct (ch <? 0) eqn:Hch; [now apply (IH s out)|].
  destruct (handle_key rnd fuel ch s) as [s1| | |] eqn:Hkey; try discriminate.
  cbn [bind] in Hrun.
  destruct (redraw (grid s1) out) as [out1| | |] eqn:Hdraw; try discriminate.
  cbn [bind] in Hrun.
  apply (IH s1 out1); auto.
  - apply (game_ok_loop_step rnd fuel ch s s1 Hr Hok).
    unfold loop_step. now rewrite Hch.
  - now exists (clear_terminal_and_move_up (ROWS + 3) out).
Qed.

(** X20. The screen is never stale: whenever [main] stops or waits for a key,
    the last thing it wrote is the drawing of the grid as it then is, and
    that grid satisfies the invariants of the game.  The exit code is 0
    exactly when [quit] is set. *)
Theorem screen_shows_the_grid (rnd : nat -> Z) (fuel : nat) (keys : list Z)
        (g0 : Grid) (k : nat) (out : list ascii)
        (code : option Z) (s : Game) (out' : list ascii) :
  rand_ok rnd -> cells_ok g0 ->
  main rnd fuel true keys g0 k out = Ok (code, s, out') ->
  game_ok (grid s)
  /\ (exists pre, draw_grid (grid s) pre = Ok out')
  /\ code = (if quit s then Some 0 else None).
Proof.
  intros Hr Hl Hrun. unfold main in Hrun.
  destruct (init_grid rnd fuel g0 max_mines k) as [[g k']| | |] eqn:Hinit;
    try discriminate.
  cbn [bind fst snd negb] in Hrun. cbv zeta in Hrun. cbn [grid] in Hrun.
  destruct (draw_grid g out) as [out1| | |] eqn:Hdraw; try discriminate.
  cbn [bind] in Hrun.
  destruct (play rnd fuel keys (mkGame g false k') out1) as [[s1 o1]| | |] eqn:Hplay;
    try discriminate.
  cbn [bind fst snd] in Hrun. injection Hrun as <- <- <-.
  assert (Hok : game_ok g).
  { apply (game_ok_init rnd fuel g0 max_mines k g k'); auto.
    unfold max_mines, SIZE_BITS. lia. }
  destruct (play_current rnd fuel keys Hr (mkGame g false k') out1 s1 o1 Hok)
    as [Hok1 Hcur]; [now exists out | assumption |].
  split; [assumption|]. now split.
Qed.

Lemma screen_shows_the_grid_witness :
  game_ok (grid detonated_game)
  /\ (exists pre,
         draw_grid (grid detonated_game) pre
         = Ok (match main cyc 25 true [chr " "] scrap_grid 0 [] with
               | Ok (_, _, o) => o
               | _ => []
               end))
  /\ None = (if quit detonated_game then Some 0 else None).
Proof.
  apply (screen_shows_the_grid cyc 25 [chr " "] scrap_grid 0 [] None detonated_game
           (match main cyc 25 true [chr " "] scrap_grid 0 [] with
            | Ok (_, _, o) => o
            | _ => []
            end)).
  - exact cyc_rand_ok.
  - reflexivity.
  - vm_compute. reflexivity.
Defined.

Example quit_in_the_middle :
  fst <$> (match play cyc 0 [chr "d"; chr "q"; chr " "; chr "f"] started_game [] with
           | Ok r => Some r
           | _ => None
           end)
  = Some (mkGame (mkGrid (cells started_grid) 0 1 max_mines 0) true 50).
Proof. vm_compute. reflexivity. Qed.

Example not_a_terminal :
  main cyc 25 false [chr " "; chr "q"] scrap_grid 0 [] = Ok (Some 1, started_game, []).
Proof. vm_compute. reflexivity. Qed.

(** * randomize_grid on a board that already holds mines *)

Lemma same_marks_refl (g : Grid) : same_marks g g.
Proof. repeat split. Qed.

Lemma same_marks_trans (g1 g2 g3 : Grid) :
  same_marks g1 g2 -> same_marks g2 g3 -> same_marks g1 g3.
Proof. unfold same_marks. intros (? & ? & ?) (? & ? & ?). repeat split; congruence. Qed.

Lemma same_marks_mines_count (g g' : Grid) :
  same_marks g g' -> mines_count g' = mines_count g.
Proof.
  intros (_ & _ & Hf). now apply (f_equal (fun t => snd (fst t))) in Hf.
Qed.

Lemma mined_at_adds (g : Grid) (i : nat) (c : Cell) :
  cells_ok g -> cells g !! i = Some c -> is_mine c = false ->
  cells_ok (mined_at g i c)
  /\ count_if is_mine (cells (mined_at g i c)) = count_if is_mine (cells g) + 1
  /\ same_marks g (mined_at g i c).
Proof.
  intros Hl Hc Hm. unfold mined_at, cells_ok, same_marks. simpl.
  rewrite length_insert, (count_if_insert is_mine _ _ c _ Hc), Hm.
  change (is_mine (with_type c MINE)) with true. cbv iota.
  rewrite !list_fmap_insert. simpl.
  repeat split; auto; try lia; apply list_insert_id; now rewrite list_lookup_fmap, Hc.
Qed.

Section AnyBoard.

Variable rnd : nat -> Z.
Hypothesis rnd_ok : rand_ok rnd.

Lemma randomize_loop_adds (fuel : nat) :
  forall (g : Grid) (placed : Z) (k : nat) (g' : Grid) (k' : nat),
    cells_ok g ->
    0 <= placed <= mines_count g -> mines_count g < 2 ^ SIZE_BITS ->
    randomize_loop rnd fuel g placed k = Ok (g', k') ->
    cells_ok g'
    /\ count_if is_mine (cells g') = count_if is_mine (cells g) + (mines_count g - placed)
    /\ same_marks g g'.
Proof.
  induction fuel as [|fuel IH]; intros g placed k g' k' Hl Hp Hm Hrun.
  - simpl in Hrun. destruct (Z.ltb_spec placed (mines_count g)); [discriminate|].
    injection Hrun as <- <-. split; [assumption|]. split; [lia | apply same_marks_refl].
  - destruct (Z.ltb_spec placed (mines_count g)) as [Hlt|Hge].
    + destruct (randomize_loop_step rnd fuel g placed k rnd_ok Hl Hlt)
        as (cell & Hcell & Heq).
      rewrite Heq in Hrun. destruct (is_mine cell) eqn:Hmine.
      * now apply (IH g placed (S (S k)) g' k').
      * rewrite size_wrap_small in Hrun by lia.
        destruct (mined_at_adds g _ cell Hl Hcell Hmine) as (Hl1 & Hc1 & Hs1).
        pose proof (same_marks_mines_count _ _ Hs1) as Hmc.
        destruct (IH _ (placed + 1) (S (S k)) g' k' Hl1) as (Hl' & Hc' & Hs');
          [rewrite Hmc; lia | rewrite Hmc; lia | assumption |].
        split; [assumption|]. split; [rewrite Hc', Hc1, Hmc; lia|].
        now apply (same_marks_trans g (mined_at g (drawn rnd k) cell)).
    + cbn [randomize_loop] in Hrun. apply Z.ltb_ge in Hge. rewrite Hge in Hrun.
      injection Hrun as <- <-. apply Z.ltb_ge in Hge.
      split; [assumption|]. split; [lia | apply same_marks_refl].
Qed.

Lemma randomize_loop_overfull (fuel : nat) :
  forall (g : Grid) (placed : Z) (k : nat),
    cells_ok g ->
    0 <= placed -> mines_count g < 2 ^ SIZE_BITS ->
    ROWS * COLS < count_if is_mine (cells g) + (mines_count g - placed) ->
    randomize_loop rnd fuel g placed k = OutOfFuel.
Proof.
  induction fuel as [|fuel IH]; intros g placed k Hl Hp Hm Hfull;
    pose proof (count_if_bounds is_mine (cells g)) as Hb;
    rewrite Hl in Hb;
    change (Z.of_nat (Z.to_nat (ROWS * COLS))) with (ROWS * COLS) in Hb;
    assert (Hlt : placed < mines_count g) by lia.
  - simpl. apply Z.ltb_lt in Hlt. now rewrite Hlt.
  - destruct (randomize_loop_step rnd fuel g placed k rnd_ok Hl Hlt)
      as (cell & Hcell & ->).
    destruct (is_mine cell) eqn:Hmine; [now apply IH|].
    rewrite size_wrap_small by lia.
    destruct (mined_at_adds g _ cell Hl Hcell Hmine) as (Hl1 & Hc1 & Hs1).
    pose proof (same_marks_mines_count _ _ Hs1) as Hmc.
    apply IH; auto; try lia; rewrite ?Hmc, ?Hc1; lia.
Qed.

Lemma free_cell_any (g : Grid) :
  cells_ok g -> count_if is_mine (cells g) < ROWS * COLS ->
  exists r c cell,
    (0 <= r < ROWS /\ 0 <= c < COLS)
    /\ cells g !! Z.to_nat (r * COLS + c) = Some cell
    /\ is_mine cell = false.
Proof.
  intros Hl Hlt.
  destruct (count_if_lt_lookup is_mine (cells g)) as (i & cell & Hi & Hm).
  { rewrite Hl. exact Hlt. }
  pose proof (lookup_lt_Some _ _ _ Hi) as Hlen. rewrite Hl in Hlen.
  exists (Z.of_nat i / 10), (Z.of_nat i mod 10), cell.
  unfold ROWS, COLS in *.
  pose proof (Z.div_mod (Z.of_nat i) 10 ltac:(lia)) as Hdm.
  pose proof (Z.mod_pos_bound (Z.of_nat i) 10 ltac:(lia)) as Hmod.
  repeat split; try lia; [| assumption].
  replace (Z.to_nat (Z.of_nat i / 10 * 10 + Z.of_nat i mod 10)) with i by lia.
  assumption.
Qed.

Lemma randomize_loop_progress_any (j : nat) :
  forall (k : nat) (g : Grid) (placed : Z),
    cells_ok g ->
    0 <= placed < mines_count g -> mines_count g < 2 ^ SIZE_BITS ->
    (exists cell, cells g !! drawn rnd (k + 2 * j) = Some cell
                  /\ is_mine cell = false) ->
    exists (n : nat) (g1 : Grid),
      cells_ok g1
      /\ count_if is_mine (cells g1) = count_if is_mine (cells g) + 1
      /\ same_marks g g1
      /\ forall fuel,
          randomize_loop rnd (S n + fuel) g placed k
          = randomize_loop rnd fuel g1 (placed + 1) (k + 2 * S n).
Proof.
  induction j as [|j IH]; intros k g placed Hl Hp Hm (cell & Hcell & Hmine);
    destruct (randomize_loop_step rnd 0 g placed k rnd_ok Hl (proj2 Hp))
      as (cell0 & Hcell0 & _);
    destruct (is_mine cell0) eqn:Hmine0.
  - replace (k + 2 * 0)%nat with k in Hcell by lia. congruence.
  - exists 0%nat, (mined_at g (drawn rnd k) cell0).
    destruct (mined_at_adds g _ cell0 Hl Hcell0 Hmine0) as (Hl1 & Hc1 & Hs1).
    split; [assumption|]. split; [assumption|]. split; [assumption|]. intros fuel.
    destruct (randomize_loop_step rnd fuel g placed k rnd_ok Hl (proj2 Hp))
      as (cell1 & Hcell1 & Heq).
    assert (cell1 = cell0) by congruence. subst cell1.
    rewrite Hmine0, size_wrap_small in Heq by lia.
    replace (k + 2 * 1)%nat with (S (S k)) by lia. exact Heq.
  - destruct (IH (S (S k)) g placed Hl Hp Hm) as (n & g1 & Hl1 & Hc1 & Hs1 & Hrun).
    { exists cell. split; [|assumption].
      replace (S (S k) + 2 * j)%nat with (k + 2 * S j)%nat by lia. assumption. }
    exists (S n), g1.
    split; [assumption|]. split; [assumption|]. split; [assumption|]. intros fuel.
    destruct (randomize_loop_step rnd (S n + fuel) g placed k rnd_ok Hl (proj2 Hp))
      as (cell1 & Hcell1 & Heq).
    assert (cell1 = cell0) by congruence. subst cell1.
    rewrite Hmine0 in Heq. cbn [Nat.add] in *. rewrite Heq, Hrun.
    f_equal. lia.
  - exists 0%nat, (mined_at g (drawn rnd k) cell0).
    destruct (mined_at_adds g _ cell0 Hl Hcell0 Hmine0) as (Hl1 & Hc1 & Hs1).
    split; [assumption|]. split; [assumption|]. split; [assumption|]. intros fuel.
    destruct (randomize_loop_step rnd fuel g placed k rnd_ok Hl (proj2 Hp))
      as (cell1 & Hcell1 & Heq).
    assert (cell1 = cell0) by congruence. subst cell1.
    rewrite Hmine0, size_wrap_small in Heq by lia.
    replace (k + 2 * 1)%nat with (S (S k)) by lia. exact Heq.
Qed.

Lemma randomize_loop_terminates_any (d : nat) :
  forall (g : Grid) (placed : Z) (k : nat),
    cells_ok g ->
    fair_from rnd k ->
    0 <= placed -> mines_count g < 2 ^ SIZE_BITS ->
    count_if is_mine (cells g) + (mines_count g - placed) <= ROWS * COLS ->
    mines_count g - placed <= Z.of_nat d ->
    exists fuel g' k', randomize_loop rnd fuel g placed k = Ok (g', k').
Proof.
  induction d as [|d IH]; intros g placed k Hl Hfair Hp Hm Hroom Hd;
    destruct (Z.ltb_spec placed (mines_count g)) as [Hlt|Hge].
  - lia.
  - exists 0%nat, g, k. simpl. apply Z.ltb_ge in Hge. now rewrite Hge.
  - destruct (free_cell_any g Hl) as (r & c & cell & [Hr Hc] & Hcell & Hmine);
      [lia|].
    destruct (Hfair 0%nat r c Hr Hc) as (j & _ & Hj).
    destruct (randomize_loop_progress_any j k g placed Hl)
      as (n & g1 & Hl1 & Hc1 & Hs1 & Hrun); [lia | assumption | |].
    { exists cell. split; [|assumption]. unfold drawn. unfold pick in Hj.
      apply pair_equal_spec in Hj as [-> ->]. assumption. }
    pose proof (same_marks_mines_count _ _ Hs1) as Hmc.
    destruct (IH g1 (placed + 1) (k + 2 * S n)%nat Hl1) as (fuel & g' & k' & Hok);
      try (rewrite ?Hmc, ?Hc1; lia).
    { now apply fair_from_shift. }
    exists (S n + fuel)%nat, g', k'. now rewrite Hrun.
  - exists 0%nat, g, k. simpl. apply Z.ltb_ge in Hge. now rewrite Hge.
Qed.

End AnyBoard.

(** X21. [randomize_grid] counts the mines it places, not the mines on the
    board: on a grid that already holds some it adds [mines_count] more, on
    cells that had none, and changes nothing else.  On a fair random source
    it returns when the board has room for them; when it has not, the loop
    never ends. *)
Theorem randomize_grid_adds_mines (rnd : nat -> Z) (g : Grid) (k : nat) :
  rand_ok rnd -> fair_from rnd k -> cells_ok g ->
  0 <= mines_count g < 2 ^ SIZE_BITS ->
  (count_if is_mine (cells g) + mines_count g <= ROWS * COLS ->
   exists fuel g' k',
     randomize_grid rnd fuel g k = Ok (g', k')
     /\ count_if is_mine (cells g') = count_if is_mine (cells g) + mines_count g
     /\ same_marks g g')
  /\ (ROWS * COLS < count_if is_mine (cells g) + mines_count g ->
      forall fuel, randomize_grid rnd fuel g k = OutOfFuel).
Proof.
  intros Hr Hf Hl Hm. unfold randomize_grid. split.
  - intros Hroom.
    destruct (randomize_loop_terminates_any rnd Hr (Z.to_nat (mines_count g)) g 0 k)
      as (fuel & g' & k' & Hrun); auto; try lia.
    exists fuel, g', k'. split; [assumption|].
    destruct (randomize_loop_adds rnd Hr fuel g 0 k g' k' Hl) as (_ & Hc & Hs);
      auto; try lia.
    split; [rewrite Hc; lia | assumption].
  - intros Hfull fuel. apply (randomize_loop_overfull rnd Hr); auto; lia.
Qed.

Lemma randomize_grid_adds_mines_witness :
  (count_if is_mine (cells started_grid) + mines_count started_grid <= ROWS * COLS ->
   exists fuel g' k',
     randomize_grid cyc fuel started_grid 0 = Ok (g', k')
     /\ count_if is_mine (cells g')
        = count_if is_mine (cells started_grid) + mines_count started_grid
     /\ same_marks started_grid g')
  /\ (ROWS * COLS < count_if is_mine (cells started_grid) + mines_count started_grid ->
      forall fuel, randomize_grid cyc fuel started_grid 0 = OutOfFuel).
Proof.
  apply (randomize_grid_adds_mines cyc started_grid 0).
  - exact cyc_rand_ok.
  - exact cyc_fair.
  - reflexivity.
  - unfold SIZE_BITS. vm_compute. split; congruence.
Defined.

Example randomize_grid_twice :
  (gk <~ randomize_grid cyc 50 started_grid 0;
   Ok (count_if is_mine (cells (fst gk)), snd gk))
  = Ok (50, 100%nat).
Proof. vm_compute. reflexivity. Qed.
